(** * SQA task manager: the task form, the task collection and the visual
      test runner, embedded from the TypeScript sources.

    - [src/types/Task.ts]                         records
    - [src/components/TaskForm/TaskForm.tsx]      module [TaskForm]
    - [src/app/page.tsx]                          module [Page]
    - [src/components/TestRunner/TestRunner.tsx]  module [TestRunner]
*)

From Stdlib Require Import Ascii String.
From stdpp Require Import base numbers list gmap strings pretty sorting.

Set Default Proof Using "Type".

(** ** JavaScript strings

    A JavaScript string is a sequence of UTF-16 code units; [length] counts
    code units and [===] on strings is equality of the sequences. *)

Definition code_unit := N.
Abbreviation jsstring := (list code_unit).

(** A source literal (all literals of the sources used here are ASCII). *)
Definition str (s : string) : jsstring :=
  (λ a, N_of_ascii a) <$> list_ascii_of_string s.
Global Arguments str : simpl never.

(** ECMAScript [WhiteSpace] and [LineTerminator] code points: what
    [String.prototype.trim] strips. *)
Definition isWhiteSpace (c : code_unit) : bool :=
  ((c =? 0x0009) || (c =? 0x000A) || (c =? 0x000B) || (c =? 0x000C) ||
   (c =? 0x000D) || (c =? 0x0020) || (c =? 0x00A0) || (c =? 0x1680) ||
   ((0x2000 <=? c) && (c <=? 0x200A)) ||
   (c =? 0x2028) || (c =? 0x2029) || (c =? 0x202F) || (c =? 0x205F) ||
   (c =? 0x3000) || (c =? 0xFEFF))%N.

Fixpoint trimStart (s : jsstring) : jsstring :=
  match s with
  | [] => []
  | c :: r => if isWhiteSpace c then trimStart r else s
  end.

Definition trimEnd (s : jsstring) : jsstring := reverse (trimStart (reverse s)).

Definition trim (s : jsstring) : jsstring := trimEnd (trimStart s).

(** Truthiness of a [string | undefined]: [undefined] and the empty string
    are falsy. *)
Definition truthy (v : option jsstring) : bool :=
  match v with
  | Some (_ :: _) => true
  | _ => false
  end.

(** [a || b] on strings. *)
Definition or_else (v : option jsstring) (d : jsstring) : jsstring :=
  match v with
  | Some (c :: r) => c :: r
  | _ => d
  end.

(** ** [src/types/Task.ts] *)

(** [keyof TaskFormData] *)
Inductive Field := title | description | priority.

Global Instance Field_eq_dec : EqDecision Field.
Proof. solve_decision. Defined.

Global Instance Field_countable : Countable Field.
Proof.
  refine (inj_countable'
    (λ f, match f with title => 0 | description => 1 | priority => 2 end)
    (λ n, match n with 0 => title | 1 => description | _ => priority end) _).
  by intros [].
Defined.

Definition fields : list Field := [title; description; priority].

(** [TaskFormData]. The declared type of [priority] is a union of three
    literals, but at run time the value is whatever string the select
    element carries, and [validateField] checks it as a string. *)
Record TaskFormData := mkFormData {
  fd_title : jsstring;
  fd_description : jsstring;
  fd_priority : jsstring;
}.

(** [Partial<TaskFormData>] *)
Record PartialFormData := mkPartial {
  pd_title : option jsstring;
  pd_description : option jsstring;
  pd_priority : option jsstring;
}.

(** [TaskFormErrors]: three optional messages. *)
Record TaskFormErrors := mkErrors {
  err_title : option jsstring;
  err_description : option jsstring;
  err_priority : option jsstring;
}.

Global Instance TaskFormData_eq_dec : EqDecision TaskFormData.
Proof. solve_decision. Defined.
Global Instance TaskFormErrors_eq_dec : EqDecision TaskFormErrors.
Proof. solve_decision. Defined.

(** [Task]; a [Date] is its time value, in milliseconds. *)
Record Task := mkTask {
  id : jsstring;
  task_title : jsstring;
  task_description : option jsstring;
  completed : bool;
  task_priority : jsstring;
  createdAt : Z;
  updatedAt : Z;
}.

Global Instance Task_eq_dec : EqDecision Task.
Proof. solve_decision. Defined.

(** ** [src/components/TaskForm/TaskForm.tsx] *)

Module TaskForm.

Definition msg_required : jsstring := str "Title is required".
Definition msg_too_short : jsstring := str "Title must be at least 3 characters".
Definition msg_too_long : jsstring := str "Title must be less than 100 characters".
Definition msg_description : jsstring :=
  str "Description must be less than 500 characters".
Definition msg_priority : jsstring := str "Please select a valid priority".

Definition includes (l : list jsstring) (v : jsstring) : bool :=
  bool_decide (v ∈ l).

Definition validateField (name : Field) (value : jsstring) : option jsstring :=
  match name with
  | title =>
      if negb (truthy (Some (trim value))) then Some msg_required
      else if length (trim value) <? 3 then Some msg_too_short
      else if 100 <? length (trim value) then Some msg_too_long
      else None
  | description =>
      if 500 <? length value then Some msg_description
      else None
  | priority =>
      if negb (includes [str "low"; str "medium"; str "high"] value)
      then Some msg_priority
      else None
  end.

(** One render snapshot of the component: the three [useState] cells.
    [touched] is a [Record<string, boolean>]; a missing key reads as
    [undefined], which is falsy. *)
Record FormState := mkForm {
  formData : TaskFormData;
  errors : TaskFormErrors;
  touched : gmap Field bool;
}.

(** The props that the handlers read. [onSubmit] is the external creation
    callback: its invocations are recorded in the trace below.
    [isLoading] and [submitButtonText] only reach the markup. *)
Record Props := mkProps {
  prop_initialData : option PartialFormData;
}.

(** The destructuring default [initialData = {}]. *)
Definition initialData (p : Props) : PartialFormData :=
  default (mkPartial None None None) (prop_initialData p).

Definition defaultFormData : TaskFormData :=
  mkFormData (str "") (str "") (str "medium").

Definition noErrors : TaskFormErrors := mkErrors None None None.

(** The initial values of the [useState] cells. *)
Definition initialFormData (p : Props) : TaskFormData :=
  mkFormData (or_else (pd_title (initialData p)) (str ""))
             (or_else (pd_description (initialData p)) (str ""))
             (or_else (pd_priority (initialData p)) (str "medium")).

Definition initialState (p : Props) : FormState :=
  mkForm (initialFormData p) noErrors ∅.

(** [obj[name]] and [{ ...obj, [name]: v }] on the two records. *)
Definition getValue (d : TaskFormData) (name : Field) : jsstring :=
  match name with
  | title => fd_title d
  | description => fd_description d
  | priority => fd_priority d
  end.

Definition setValue (name : Field) (v : jsstring) (d : TaskFormData) : TaskFormData :=
  match name with
  | title => mkFormData v (fd_description d) (fd_priority d)
  | description => mkFormData (fd_title d) v (fd_priority d)
  | priority => mkFormData (fd_title d) (fd_description d) v
  end.

Definition getError (e : TaskFormErrors) (name : Field) : option jsstring :=
  match name with
  | title => err_title e
  | description => err_description e
  | priority => err_priority e
  end.

Definition setError (name : Field) (v : option jsstring) (e : TaskFormErrors)
    : TaskFormErrors :=
  match name with
  | title => mkErrors v (err_description e) (err_priority e)
  | description => mkErrors (err_title e) v (err_priority e)
  | priority => mkErrors (err_title e) (err_description e) v
  end.

(** Truthiness of [touched[name]]. *)
Definition isTouched (t : gmap Field bool) (name : Field) : bool :=
  match t !! name with
  | Some b => b
  | None => false
  end.

(** *** Event handlers as programs over React's update queue

    A handler closes over the snapshot it was rendered with. A [setX] call
    does not change that snapshot: it queues an update. Queued updates are
    applied together, as one commit, when [flushSync] returns and when the
    handler returns. What the outside can see of a handler is its trace:
    the commits, the calls of [onSubmit] and [preventDefault]. *)

Inductive Effect :=
  | PreventDefault
  | OnSubmit (d : TaskFormData)
  | Commit (s : FormState).

Record Fiber := mkFiber {
  current : FormState;
  queue : list (FormState → FormState);
  trace : list Effect;
}.

Definition Handler (A : Type) : Type := Fiber → A * Fiber.

Definition ret {A} (a : A) : Handler A := λ fb, (a, fb).

Definition bind {A B} (m : Handler A) (k : A → Handler B) : Handler B :=
  λ fb, let '(a, fb') := m fb in k a fb'.

Global Instance Handler_ret : MRet Handler := @ret.
Global Instance Handler_bind : MBind Handler := λ A B k m, bind m k.

Definition emit (e : Effect) : Handler unit :=
  λ fb, (tt, mkFiber (current fb) (queue fb) (trace fb ++ [e])).

Definition enqueue (u : FormState → FormState) : Handler unit :=
  λ fb, (tt, mkFiber (current fb) (queue fb ++ [u]) (trace fb)).

Definition setFormData (f : TaskFormData → TaskFormData) : Handler unit :=
  enqueue (λ s, mkForm (f (formData s)) (errors s) (touched s)).

Definition setErrors (f : TaskFormErrors → TaskFormErrors) : Handler unit :=
  enqueue (λ s, mkForm (formData s) (f (errors s)) (touched s)).

Definition setTouched (f : gmap Field bool → gmap Field bool) : Handler unit :=
  enqueue (λ s, mkForm (formData s) (errors s) (f (touched s))).

(** Apply the queued updates in order and show the result. *)
Definition flush : Handler unit :=
  λ fb,
    match queue fb with
    | [] => (tt, fb)
    | _ :: _ =>
        let s' := foldl (λ s u, u s) (current fb) (queue fb) in
        (tt, mkFiber s' [] (trace fb ++ [Commit s']))
    end.

Definition flushSync (body : Handler unit) : Handler unit :=
  body ;; flush.

(** Run a handler rendered with snapshot [s] to its end. *)
Definition runHandler (h : Handler unit) (s : FormState) : list Effect * FormState :=
  let '(_, fb) := (h ;; flush) (mkFiber s [] []) in (trace fb, current fb).

Section Handlers.

Variable props : Props.
(** The snapshot the handlers were rendered with. *)
Variable snap : FormState.

Definition validateForm : bool * TaskFormErrors :=
  let newErrors :=
    mkErrors (validateField title (fd_title (formData snap)))
             (validateField description (fd_description (formData snap)))
             (validateField priority (fd_priority (formData snap))) in
  let hasErrors :=
    existsb truthy
      [err_title newErrors; err_description newErrors; err_priority newErrors] in
  (negb hasErrors, newErrors).

Definition handleInputChange (name : Field) (value : jsstring) : Handler unit :=
  setFormData (setValue name value) ;;
  if isTouched (touched snap) name then
    let fieldError := validateField name value in
    setErrors (setError name fieldError)
  else mret tt.

Definition handleBlur (name : Field) (value : jsstring) : Handler unit :=
  setTouched (λ prev, <[name := true]> prev) ;;
  let fieldError := validateField name value in
  setErrors (setError name fieldError).

Definition newTouched : gmap Field bool :=
  <[title := true]> (<[description := true]> (<[priority := true]> ∅)).

Definition handleSubmit : Handler unit :=
  emit PreventDefault ;;
  let validation := validateForm in
  flushSync (
    setTouched (λ _, newTouched) ;;
    setErrors (λ _, validation.2)) ;;
  if negb validation.1 then mret tt
  else
    emit (OnSubmit (formData snap)) ;;
    if negb (truthy (pd_title (initialData props))) then
      setFormData (λ _, defaultFormData) ;;
      setTouched (λ _, ∅) ;;
      setErrors (λ _, noErrors)
    else mret tt.

(** The [useEffect] that re-seeds the fields: it runs after the first
    render (and again only when a seed value changes). *)
Definition seedEffect : Handler unit :=
  setFormData (λ _, initialFormData props).

End Handlers.

(** What the markup shows for a field:
    [errors.f && touched.f && <p role="alert">errors.f</p>]. *)
Definition renderedError (s : FormState) (name : Field) : option jsstring :=
  if truthy (getError (errors s) name) && isTouched (touched s) name
  then getError (errors s) name
  else None.

(** The events the form receives. *)
Inductive Event :=
  | Mount
  | Change (name : Field) (value : jsstring)
  | Blur (name : Field) (value : jsstring)
  | Submit.

Definition dispatch (p : Props) (ev : Event) (s : FormState)
    : list Effect * FormState :=
  match ev with
  | Mount => runHandler (seedEffect p) s
  | Change name value => runHandler (handleInputChange s name value) s
  | Blur name value => runHandler (handleBlur name value) s
  | Submit => runHandler (handleSubmit p s) s
  end.

(** The states an observer can see: the first render and every commit. *)
Inductive observable (p : Props) : FormState → Prop :=
  | obs_init : observable p (initialState p)
  | obs_commit s ev s' :
      observable p s → Commit s' ∈ (dispatch p ev s).1 → observable p s'.

(** The commits and the callback invocations of a trace. *)
Definition commits (tr : list Effect) : list FormState :=
  omap (λ e, match e with Commit s => Some s | _ => None end) tr.

Definition submitted (tr : list Effect) : list TaskFormData :=
  omap (λ e, match e with OnSubmit d => Some d | _ => None end) tr.

Definition fails (s : FormState) (name : Field) : Prop :=
  validateField name (getValue (formData s) name) ≠ None.

End TaskForm.

(** ** Task objects, object identity and the clock

    A task in an array is a reference to an object. The heap maps references
    to the objects they denote; an object literal allocates a reference that
    was not in use. [clock n] is what the system clock returns on the [n]-th
    time it is read; [ticks] counts the reads made so far. *)

Abbreviation loc := positive.

Record World := mkWorld {
  heap : gmap loc Task;
  clock : nat → Z;
  ticks : nat;
}.

Definition Js (A : Type) : Type := World → A * World.

Definition jret {A} (a : A) : Js A := λ w, (a, w).

Definition jbind {A B} (m : Js A) (k : A → Js B) : Js B :=
  λ w, let '(a, w') := m w in k a w'.

Global Instance Js_ret : MRet Js := @jret.
Global Instance Js_bind : MBind Js := λ A B k m, jbind m k.

(** [Date.now()], and the time value of [new Date()]. *)
Definition dateNow : Js Z :=
  λ w, (clock w (ticks w), mkWorld (heap w) (clock w) (S (ticks w))).

(** An object literal. *)
Definition alloc (t : Task) : Js loc :=
  λ w, let l := fresh (dom (heap w)) in
       (l, mkWorld (<[l := t]> (heap w)) (clock w) (ticks w)).

(** Reading through a reference. *)
Definition load (l : loc) : Js (option Task) :=
  λ w, (heap w !! l, w).

(** [Array.prototype.map] with a callback that has effects. *)
Fixpoint mapJs {A B} (f : A → Js B) (l : list A) : Js (list B) :=
  match l with
  | [] => mret []
  | x :: r => y ← f x; ys ← mapJs f r; mret (y :: ys)
  end.

(** The template literal [`task-${Date.now()}`]. *)
Definition taskId (now : Z) : jsstring := str "task-" ++ str (pretty now).

(** The object literal of [handleCreateTask], the same in both components:
    its three property initialisers read the clock one after the other. *)
Definition newTask (taskData : TaskFormData) : Js loc :=
  i ← dateNow;
  c ← dateNow;
  u ← dateNow;
  alloc {| id := taskId i;
           task_title := fd_title taskData;
           task_description := Some (fd_description taskData);
           completed := false;
           task_priority := fd_priority taskData;
           createdAt := c;
           updatedAt := u |}.

(** The callback of [prevTasks.map] in [handleToggleComplete], the same in
    both components. A reference always denotes an object; the last case
    is there only because [load] is partial. *)
Definition toggleOne (target : jsstring) (l : loc) : Js loc :=
  t ← load l;
  match t with
  | Some task =>
      if decide (id task = target) then
        now ← dateNow;
        alloc {| id := id task;
                 task_title := task_title task;
                 task_description := task_description task;
                 completed := negb (completed task);
                 task_priority := task_priority task;
                 createdAt := createdAt task;
                 updatedAt := now |}
      else mret l
  | None => mret l
  end.

(** The predicate of [prevTasks.filter] in [handleDeleteTask]:
    [task.id !== taskId]. As in [toggleOne], the last case is there only
    because [load] is partial. *)
Definition keepTask (h : gmap loc Task) (target : jsstring) (l : loc) : bool :=
  match h !! l with
  | Some task => bool_decide (id task ≠ target)
  | None => true
  end.

(** ** [src/app/page.tsx] *)

Module Page.

(** The two [useState] cells of [Home], and the callbacks that
    [setTimeout(..., 500)] has scheduled and not yet run, oldest first. *)
Record State := mkState {
  tasks : list loc;
  isLoading : bool;
  timers : list TaskFormData;
}.

Definition initialState : State := mkState [] false [].

(** [handleCreateTask] up to the timer: raise the loading flag, schedule. *)
Definition handleCreateTask (taskData : TaskFormData) (st : State) : State :=
  mkState (tasks st) true (timers st ++ [taskData]).

(** The timer callback of [handleCreateTask]. *)
Definition createTaskCallback (taskData : TaskFormData) (st : State) : Js State :=
  newTask ← newTask taskData;
  mret (mkState (newTask :: tasks st) false (timers st)).

(** The oldest timer fires. *)
Definition fireTimer (st : State) : Js State :=
  match timers st with
  | [] => mret st
  | taskData :: rest =>
      createTaskCallback taskData (mkState (tasks st) (isLoading st) rest)
  end.

Definition handleToggleComplete (target : jsstring) (st : State) : Js State :=
  tasks' ← mapJs (toggleOne target) (tasks st);
  mret (mkState tasks' (isLoading st) (timers st)).

Definition handleDeleteTask (target : jsstring) (st : State) : Js State :=
  λ w, (mkState (filter (λ l, keepTask (heap w) target l) (tasks st))
                (isLoading st) (timers st), w).

(** The statistics panel: [tasks.filter(p).length], where the predicate
    reads each task object. *)
Definition holdsOf (p : Task → bool) (h : gmap loc Task) (l : loc) : bool :=
  match h !! l with
  | Some task => p task
  | None => false
  end.

Definition countTasks (p : Task → bool) (h : gmap loc Task) (ls : list loc) : nat :=
  length (filter (λ l, holdsOf p h l) ls).

Definition totalTasks (st : State) : nat := length (tasks st).

Definition completedTasks (h : gmap loc Task) (st : State) : nat :=
  countTasks (λ task, completed task) h (tasks st).

Definition pendingTasks (h : gmap loc Task) (st : State) : nat :=
  countTasks (λ task, negb (completed task)) h (tasks st).

Definition highPriorityTasks (h : gmap loc Task) (st : State) : nat :=
  countTasks (λ task, bool_decide (task_priority task = str "high")
                      && negb (completed task)) h (tasks st).

End Page.

(** ** [src/components/TestRunner/TestRunner.tsx] *)

Module TestRunner.

Record TestResult := mkResult {
  passed : bool;
  message : jsstring;
  details : option jsstring;
}.

Inductive Category := form | list_ | integration.

(** The five [useState] cells of [TestRunner]. *)
Record State := mkState {
  tasks : list loc;
  selectedTest : option jsstring;
  testResults : gmap jsstring TestResult;
  isRunning : bool;
  lastSubmittedData : option TaskFormData;
}.

Definition initialState : State := mkState [] None ∅ false None.

Definition handleCreateTask (taskData : TaskFormData) (st : State) : Js State :=
  let st1 := mkState (tasks st) (selectedTest st) (testResults st)
                     (isRunning st) (Some taskData) in
  newTask ← newTask taskData;
  mret (mkState (newTask :: tasks st1) (selectedTest st1) (testResults st1)
                (isRunning st1) (lastSubmittedData st1)).

Definition handleToggleComplete (target : jsstring) (st : State) : Js State :=
  tasks' ← mapJs (toggleOne target) (tasks st);
  mret (mkState tasks' (selectedTest st) (testResults st) (isRunning st)
                (lastSubmittedData st)).

Definition handleDeleteTask (target : jsstring) (st : State) : Js State :=
  λ w, (mkState (filter (λ l, keepTask (heap w) target l) (tasks st))
                (selectedTest st) (testResults st) (isRunning st)
                (lastSubmittedData st), w).

Definition clearResults (st : State) : State :=
  mkState [] (selectedTest st) ∅ (isRunning st) None.

(** A thrown value: an [Error] object with its [name] and [message], or any
    other value, given by its string conversion. Values that have no string
    conversion (a symbol, an object whose [toString] throws) are not
    modelled. *)
Inductive JsValue :=
  | ErrorObject (name message : jsstring)
  | OtherValue (conversion : jsstring).

(** [`${error}`]: for an [Error] object, [Error.prototype.toString]. *)
Definition toString (v : JsValue) : jsstring :=
  match v with
  | ErrorObject name msg =>
      match name, msg with
      | [], _ => msg
      | _, [] => name
      | _, _ => name ++ str ": " ++ msg
      end
  | OtherValue conversion => conversion
  end.

Inductive Completion (A : Type) :=
  | Normal (a : A)
  | Throw (error : JsValue).
Global Arguments Normal {A} a.
Global Arguments Throw {A} error.

(** The data of [TestContext]. Its functions ([setTasks],
    [setLastSubmittedData], [handleCreateTask]) and [formRef] are how a
    scenario acts on the page: in the model a scenario is given the page. *)
Record TestContext := mkContext {
  ctx_tasks : list loc;
  ctx_lastSubmittedData : option TaskFormData;
}.

Section Runner.

(** The document: the rendered form and list. *)
Context {Dom : Type}.

(** Everything a scenario can read and change. *)
Record Browser := mkBrowser {
  dom : Dom;
  app : State;
  world : World;
}.

(** What the event loop does to the page while the runner waits on a timer
    of the given number of milliseconds. *)
Variable settle : nat → Browser → Browser.

(** An [async] function run to the end of its promise: it fulfils or it
    rejects, and it may have changed the page. *)
Definition Async (A : Type) : Type := Browser → Completion A * Browser.

Record TestCase := mkTestCase {
  tc_id : jsstring;
  tc_name : jsstring;
  tc_description : jsstring;
  tc_category : Category;
  execute : TestContext → Async TestResult;
}.

Definition aret {A} (a : A) : Async A := λ b, (Normal a, b).

Definition abind {A B} (m : Async A) (k : A → Async B) : Async B :=
  λ b, match m b with
       | (Normal a, b') => k a b'
       | (Throw e, b') => (Throw e, b')
       end.

Global Instance Async_ret : MRet Async := @aret.
Global Instance Async_bind : MBind Async := λ A B k m, abind m k.

(** [try { body } catch (error) { handler }] *)
Definition tryCatch {A} (body : Async A) (handler : JsValue → Async A) : Async A :=
  λ b, match body b with
       | (Normal a, b') => (Normal a, b')
       | (Throw e, b') => handler e b'
       end.

(** [try { body } finally { cleanup }] *)
Definition tryFinally {A} (body : Async A) (cleanup : Async unit) : Async A :=
  λ b, match body b with
       | (Normal a, b') =>
           match cleanup b' with
           | (Normal _, b'') => (Normal a, b'')
           | (Throw e, b'') => (Throw e, b'')
           end
       | (Throw e, b') =>
           match cleanup b' with
           | (Normal _, b'') => (Throw e, b'')
           | (Throw e', b'') => (Throw e', b'')
           end
       end.

(** [await new Promise(resolve => setTimeout(resolve, ms))] *)
Definition sleep (ms : nat) : Async unit := λ b, (Normal tt, settle ms b).

Definition modifyApp (f : State → State) : Async unit :=
  λ b, (Normal tt, mkBrowser (dom b) (f (app b)) (world b)).

Definition setIsRunning (v : bool) : Async unit :=
  modifyApp (λ st, mkState (tasks st) (selectedTest st) (testResults st) v
                           (lastSubmittedData st)).

Definition setSelectedTest (v : option jsstring) : Async unit :=
  modifyApp (λ st, mkState (tasks st) v (testResults st) (isRunning st)
                           (lastSubmittedData st)).

Definition setTestResults (f : gmap jsstring TestResult → gmap jsstring TestResult)
    : Async unit :=
  modifyApp (λ st, mkState (tasks st) (selectedTest st) (f (testResults st))
                           (isRunning st) (lastSubmittedData st)).

(** [for (const x of l) { acc = body(acc, x) }] *)
Fixpoint forOf {A S} (l : list A) (body : S → A → Async S) (acc : S) : Async S :=
  match l with
  | [] => mret acc
  | x :: r => acc' ← body acc x; forOf r body acc'
  end.

Definition runTest (snap : State) (testCase : TestCase) : Async unit :=
  setIsRunning true ;;
  setSelectedTest (Some (tc_id testCase)) ;;
  tryFinally
    (tryCatch
       (let context := mkContext (tasks snap) (lastSubmittedData snap) in
        result ← execute testCase context;
        setTestResults (λ prev, <[tc_id testCase := result]> prev))
       (λ error,
        setTestResults (λ prev,
          <[tc_id testCase :=
              mkResult false (str "Error ejecutando test: " ++ toString error) None]>
            prev)))
    (setIsRunning false ;;
     setSelectedTest None).

(** The body of the loop of [runAllTests]. [results] is the local object
    that both branches assign to; the only statement of the [try] block
    that can throw is the call of [execute], which comes before the
    assignment. *)
Definition runAllStep (snap : State) (results : gmap jsstring TestResult)
    (testCase : TestCase) : Async (gmap jsstring TestResult) :=
  setSelectedTest (Some (tc_id testCase)) ;;
  tryCatch
    (let context := mkContext (tasks snap) (lastSubmittedData snap) in
     result ← execute testCase context;
     let results' := <[tc_id testCase := result]> results in
     sleep 500 ;;
     mret results')
    (λ error,
     mret (<[tc_id testCase := mkResult false (str "Error: " ++ toString error) None]>
             results)).

Definition runAllTests (snap : State) (testCases : list TestCase) : Async unit :=
  setIsRunning true ;;
  results ← forOf testCases (runAllStep snap) ∅;
  setTestResults (λ _, results) ;;
  setIsRunning false ;;
  setSelectedTest None.

End Runner.

Global Arguments Browser : clear implicits.
Global Arguments TestCase : clear implicits.
Global Arguments Async : clear implicits.

(** The ids of the declared [testCases], in declaration order. *)
Definition declaredIds : list jsstring :=
  [str "form-validation-required"; str "form-submit-valid-direct";
   str "form-validation-minlength"; str "form-submit-valid";
   str "list-render-empty"; str "list-display-tasks";
   str "list-toggle-complete"; str "list-delete-task"].

(** *** What the panel shows of the results *)

Definition getResultIcon (st : State) (testId : jsstring) : jsstring :=
  match testResults st !! testId with
  | None => [0x26AA%N]
  | Some result => if passed result then [0x2705%N] else [0x274C%N]
  end.

Definition getResultColor (st : State) (testId : jsstring) : jsstring :=
  match testResults st !! testId with
  | None => str "text-gray-400"
  | Some result => if passed result then str "text-green-600" else str "text-red-600"
  end.

(** [Object.values(testResults).filter(r => r.passed).length] and
    [Object.keys(testResults).length]. *)
Definition passedTests (st : State) : nat :=
  length (filter (λ kr, passed kr.2) (map_to_list (testResults st))).

Definition totalTests (st : State) : nat :=
  length (map_to_list (testResults st)).

(** The dot beside the counts is green when [passedTests === totalTests]. *)
Definition indicatorIsGreen (st : State) : bool :=
  passedTests st =? totalTests st.

Definition isCategory (c : Category) {Dom} (t : TestCase Dom) : bool :=
  match c, tc_category t with
  | form, form | list_, list_ | integration, integration => true
  | _, _ => false
  end.

(** [categorizedTests]: the three [filter]s, in the order of the object's
    keys. *)
Definition categorizedTests {Dom} (testCases : list (TestCase Dom))
    : list (TestCase Dom) * list (TestCase Dom) * list (TestCase Dom) :=
  (filter (λ t, isCategory form t) testCases,
   filter (λ t, isCategory list_ t) testCases,
   filter (λ t, isCategory integration t) testCases).

(** *** Three of the declared scenarios

    The document is reached through [querySelector] and [click]; what they
    do is the browser's and React's business, so they are parameters. A
    scenario reads the task collection through [context.tasks], the array
    of the render in which the run was started. *)

Section Scenarios.

Context {Dom Element : Type}.
Variable settle : nat → Browser Dom → Browser Dom.
Variable querySelector : jsstring → Async Dom (option Element).
Variable click : Element → Async Dom unit.

(** [`${b}`] for a boolean, and for [updatedTask?.completed]. *)
Definition boolString (v : bool) : jsstring :=
  if v then str "true" else str "false".

Definition optionalBoolString (v : option bool) : jsstring :=
  match v with
  | Some v => boolString v
  | None => str "undefined"
  end.

(** Reading a property of the task object behind a reference. A
    reference always denotes an object; reading through one that does not
    is given the error that reading a property of [undefined] raises. *)
Definition readTask (l : loc) : Async Dom Task :=
  λ b, match heap (world b) !! l with
       | Some task => (Normal task, b)
       | None => (Throw (ErrorObject (str "TypeError") (str "")), b)
       end.

(** [context.handleCreateTask(taskData)]: the component's handler, whose
    updates apply to the state the component has now. *)
Definition callHandleCreateTask (taskData : TaskFormData) : Async Dom unit :=
  λ b, let r := handleCreateTask taskData (app b) (world b) in
       (Normal tt, mkBrowser (dom b) r.1 r.2).

Definition directTestData : TaskFormData :=
  mkFormData (str "Test Task Direct")
             (str "Descripci" ++ [0xF3%N] ++ str "n directa")
             (str "medium").

(** [execute] of the scenario ['form-submit-valid-direct']. *)
Definition executeSubmitValidDirect (context : TestContext) : Async Dom TestResult :=
  tryCatch
    (let initialTaskCount := length (ctx_tasks context) in
     let testData := directTestData in
     callHandleCreateTask testData ;;
     sleep settle 200 ;;
     let taskAdded := initialTaskCount <? length (ctx_tasks context) in
     let correctData :=
       match ctx_lastSubmittedData context with
       | None => false
       | Some d =>
           bool_decide (fd_title d = fd_title testData) &&
           bool_decide (fd_description d = fd_description testData) &&
           bool_decide (fd_priority d = fd_priority testData)
       end in
     correctTaskData ←
       (if taskAdded then
          match ctx_tasks context !! 0 with
          | Some l =>
              task ← readTask l;
              mret (bool_decide (task_title task = fd_title testData) &&
                    bool_decide (task_description task = Some (fd_description testData)) &&
                    bool_decide (task_priority task = fd_priority testData))
          | None => mret false
          end
        else mret false);
     let allSuccess := taskAdded && correctData && correctTaskData in
     mret (mkResult allSuccess
             (if allSuccess
              then str "Creaci" ++ [0xF3%N] ++ str "n directa de tarea exitosa"
              else str "Error en creaci" ++ [0xF3%N] ++ str "n directa")
             (Some (str "Tarea agregada: " ++ boolString taskAdded ++
                    str ", Datos correctos: " ++ boolString correctData ++
                    str ", Tarea correcta: " ++ boolString correctTaskData))))
    (λ error,
     mret (mkResult false (str "Error en test directo: " ++ toString error) None)).

(** [execute] of the scenario ['list-delete-task']. *)
Definition executeDeleteTask (context : TestContext) : Async Dom TestResult :=
  match ctx_tasks context with
  | [] => mret (mkResult false (str "No hay tareas para probar") None)
  | firstTask :: _ =>
      let initialCount := Z.of_nat (length (ctx_tasks context)) in
      first ← readTask firstTask;
      deleteButton ←
        querySelector (str "[aria-label*=" ++ [0x22%N] ++ str "Delete " ++
                       [0x5C%N; 0x22%N] ++ task_title first ++
                       [0x5C%N; 0x22%N; 0x22%N] ++ str "]");
      match deleteButton with
      | None =>
          mret (mkResult false
                  (str "Bot" ++ [0xF3%N] ++ str "n de eliminar no encontrado") None)
      | Some button =>
          click button ;;
          sleep settle 200 ;;
          let newCount := Z.of_nat (length (ctx_tasks context)) in
          let taskDeleted := (newCount =? initialCount - 1)%Z in
          mret (mkResult taskDeleted
                  (if taskDeleted then str "Tarea eliminada correctamente"
                   else str "Error al eliminar tarea")
                  (Some (str "Tareas antes: " ++ str (pretty initialCount) ++
                         str ", despu" ++ [0xE9%N] ++ str "s: " ++
                         str (pretty newCount))))
      end
  end.

(** [context.tasks.find(t => t.id === firstTask.id)], reading the objects
    as they are in heap [h]. *)
Definition sameId (h : gmap loc Task) (firstTask l : loc) : bool :=
  match h !! l, h !! firstTask with
  | Some t, Some t0 => bool_decide (id t = id t0)
  | _, _ => false
  end.

Definition findById (h : gmap loc Task) (firstTask : loc) (ls : list loc)
    : option loc :=
  List.find (sameId h firstTask) ls.

(** The last part of the scenario ['list-toggle-complete']: look the task
    up again and compare. *)
Definition checkToggled (context : TestContext) (firstTask : loc)
    (initialCompleted : bool) : Async Dom TestResult :=
  λ b,
    let h := heap (world b) in
    let updatedTask := findById h firstTask (ctx_tasks context) in
    let updatedCompleted := l ← updatedTask; completed <$> h !! l in
    let toggledCorrectly :=
      match updatedCompleted with
      | Some v => negb (eqb v initialCompleted)
      | None => false
      end in
    (Normal
       (mkResult toggledCorrectly
          (if toggledCorrectly
           then str "Toggle de completar funciona correctamente"
           else str "Error en toggle de completar")
          (Some (str "Estado inicial: " ++ boolString initialCompleted ++
                 str ", Estado final: " ++
                 optionalBoolString updatedCompleted))), b).

(** [execute] of the scenario ['list-toggle-complete']. *)
Definition executeToggleComplete (context : TestContext) : Async Dom TestResult :=
  match ctx_tasks context with
  | [] => mret (mkResult false (str "No hay tareas para probar") None)
  | firstTask :: _ =>
      first ← readTask firstTask;
      let initialCompleted := completed first in
      checkbox ←
        querySelector (str "[data-testid=" ++ [0x22%N] ++ str "task-" ++ id first ++
                       [0x22%N] ++ str "] input[type=" ++ [0x22%N] ++
                       str "checkbox" ++ [0x22%N] ++ str "]");
      match checkbox with
      | None => mret (mkResult false (str "Checkbox no encontrado") None)
      | Some box =>
          click box ;;
          sleep settle 200 ;;
          checkToggled context firstTask initialCompleted
      end
  end.

End Scenarios.

End TestRunner.

(** * Specification vocabulary and sample data *)

Import TaskForm.

(** The state that [flushSync] shows: values as they were, the fresh error
    mapping, every field touched. *)
Definition flushed (s : FormState) : FormState :=
  mkForm (formData s) (validateForm s).2 newTouched.

Definition resetState : FormState := mkForm defaultFormData noErrors ∅.

(** Two concrete forms: an empty create-mode form, and one in which a valid
    title has been typed. *)
Definition createProps : Props := mkProps None.

Definition typedValid : FormState :=
  mkForm (mkFormData (str "Buy milk") (str "") (str "medium")) noErrors ∅.

(** A form that was given a seed title, the empty string. *)
Definition seededEmpty : Props :=
  mkProps (Some (mkPartial (Some (str "")) None None)).

(** A form that was given a non-empty seed title. *)
Definition seededTitle : Props :=
  mkProps (Some (mkPartial (Some (str "Old title")) None None)).

(** The object literal of the toggle: a copy of [t] with [completed]
    flipped and [updatedAt] set to [now]. *)
Definition toggled (t : Task) (now : Z) : Task :=
  {| id := id t;
     task_title := task_title t;
     task_description := task_description t;
     completed := negb (completed t);
     task_priority := task_priority t;
     createdAt := createdAt t;
     updatedAt := now |}.

(** What one run of the toggle does to the world: it reads the clock and
    allocates, and it writes to no object that was there. *)
Definition extends (w w' : World) : Prop :=
  clock w' = clock w ∧ ticks w ≤ ticks w' ∧
  ∀ l t, heap w !! l = Some t → heap w' !! l = Some t.

(** The effect of a toggle with target [target] that turns the array [ls]
    into [ls'] and the world [w] into [w']. *)
Definition toggle_effect (target : jsstring) (ls ls' : list loc) (w w' : World)
    : Prop :=
  length ls' = length ls ∧
  (∀ l t, heap w !! l = Some t → heap w' !! l = Some t) ∧
  (∀ i l t, ls !! i = Some l → heap w !! l = Some t →
     if decide (id t = target) then
       ∃ l' k, ls' !! i = Some l' ∧ (l' ∉ dom (heap w)) ∧
               (ticks w ≤ k ∧ k < ticks w') ∧
               heap w' !! l' = Some (toggled t (clock w k))
     else ls' !! i = Some l ∧ heap w' !! l = Some t).

(** A task object with id [target] is what the reference [l] denotes. *)
Definition matches (h : gmap loc Task) (target : jsstring) (l : loc) : Prop :=
  ∃ t, h !! l = Some t ∧ id t = target.

(** The effect of a delete with target [target] that turns the array [ls]
    into [ls']: nothing changes when no task matches; otherwise [ls'] is
    [ls] with elements left out and the order kept, no task that matches is
    left, and nothing else was left out ([ls'] contains every selection of
    tasks of [ls] that do not match). *)
Definition delete_effect (h : gmap loc Task) (target : jsstring)
    (ls ls' : list loc) : Prop :=
  ((∀ l, l ∈ ls → ¬ matches h target l) → ls' = ls ∧ length ls' = length ls) ∧
  ls' `sublist_of` ls ∧
  (∀ l, l ∈ ls' → ¬ matches h target l) ∧
  (∀ k, k `sublist_of` ls → (∀ l, l ∈ k → ¬ matches h target l) →
        k `sublist_of` ls').

(** Two tasks, a world that holds them and in which the clock advances by a
    millisecond at every reading, and the two components showing them. *)
Definition taskA : Task :=
  {| id := str "task-1"; task_title := str "Write report";
     task_description := Some (str ""); completed := false;
     task_priority := str "high"; createdAt := 10; updatedAt := 10 |}.

Definition taskB : Task :=
  {| id := str "task-2"; task_title := str "Buy milk";
     task_description := Some (str "2 litres"); completed := true;
     task_priority := str "low"; createdAt := 20; updatedAt := 25 |}.

Definition world0 : World :=
  mkWorld (<[1%positive := taskA]> (<[2%positive := taskB]> ∅))
          (λ n, 1000 + Z.of_nat n)%Z 0.

Definition page0 : Page.State := Page.mkState [1%positive; 2%positive] false [].

Definition runner0 : TestRunner.State :=
  TestRunner.mkState [1%positive; 2%positive] None ∅ false None.

(** The task object that [handleCreateTask] builds from [taskData] in the
    world [w]: three successive readings of the clock go into it. *)
Definition createdTask (taskData : TaskFormData) (w : World) : Task :=
  {| id := taskId (clock w (ticks w));
     task_title := fd_title taskData;
     task_description := Some (fd_description taskData);
     completed := false;
     task_priority := fd_priority taskData;
     createdAt := clock w (S (ticks w));
     updatedAt := clock w (S (S (ticks w))) |}.

Definition afterCreate (taskData : TaskFormData) (w : World) : World :=
  mkWorld (<[fresh (dom (heap w)) := createdTask taskData w]> (heap w))
          (clock w) (S (S (S (ticks w)))).

(** Two payloads, an empty world in which every reading of the clock falls
    in the same millisecond, and one in which the clock advances by a
    millisecond at every reading. *)
Definition payload1 : TaskFormData :=
  mkFormData (str "Test Task Direct") (str "Descripcion directa") (str "medium").

Definition payload2 : TaskFormData :=
  mkFormData (str "Second task") (str "") (str "high").

Definition worldFrozen : World := mkWorld ∅ (λ _, 1700000000000)%Z 0.

Definition worldTicking : World :=
  mkWorld ∅ (λ n, 1700000000000 + Z.of_nat n)%Z 0.

Definition createdTwice : TestRunner.State * World :=
  let r1 := TestRunner.handleCreateTask payload1 TestRunner.initialState worldFrozen in
  TestRunner.handleCreateTask payload2 r1.1 r1.2.

Definition createdOnce : TestRunner.State * World :=
  TestRunner.handleCreateTask payload1 TestRunner.initialState worldTicking.

(** The run of all scenarios as a plain iteration: one scenario after the
    other in the order of the list, each on the page its predecessors left,
    each with a result recorded whether it fulfilled or threw. *)
Section RunAllSpec.

Context {Dom : Type}.
Variable settle : nat → TestRunner.Browser Dom → TestRunner.Browser Dom.
Variable snap : TestRunner.State.

Definition contextOf : TestRunner.TestContext :=
  TestRunner.mkContext (TestRunner.tasks snap) (TestRunner.lastSubmittedData snap).

(** The page with scenario [k] highlighted, which is the page its
    [execute] starts on. *)
Definition highlighted (k : option jsstring) (b : TestRunner.Browser Dom)
    : TestRunner.Browser Dom :=
  TestRunner.mkBrowser (TestRunner.dom b)
    (TestRunner.mkState (TestRunner.tasks (TestRunner.app b)) k
       (TestRunner.testResults (TestRunner.app b))
       (TestRunner.isRunning (TestRunner.app b))
       (TestRunner.lastSubmittedData (TestRunner.app b)))
    (TestRunner.world b).

Definition running (v : bool) (b : TestRunner.Browser Dom)
    : TestRunner.Browser Dom :=
  TestRunner.mkBrowser (TestRunner.dom b)
    (TestRunner.mkState (TestRunner.tasks (TestRunner.app b))
       (TestRunner.selectedTest (TestRunner.app b))
       (TestRunner.testResults (TestRunner.app b)) v
       (TestRunner.lastSubmittedData (TestRunner.app b)))
    (TestRunner.world b).

(** How scenario [tc] completes when it is started from page [b]. *)
Definition outcome (tc : TestRunner.TestCase Dom) (b : TestRunner.Browser Dom)
    : TestRunner.Completion TestRunner.TestResult :=
  (TestRunner.execute tc contextOf (highlighted (Some (TestRunner.tc_id tc)) b)).1.

(** The page after scenario [tc], started from page [b]: the pause between
    scenarios follows only a scenario that did not throw. *)
Definition pageAfter (b : TestRunner.Browser Dom) (tc : TestRunner.TestCase Dom)
    : TestRunner.Browser Dom :=
  match TestRunner.execute tc contextOf (highlighted (Some (TestRunner.tc_id tc)) b) with
  | (TestRunner.Normal _, b') => settle 500 b'
  | (TestRunner.Throw _, b') => b'
  end.

(** The page on which the scenario at position [i] is started. *)
Definition pageBefore (testCases : list (TestRunner.TestCase Dom)) (i : nat)
    (b : TestRunner.Browser Dom) : TestRunner.Browser Dom :=
  foldl pageAfter (running true b) (take i testCases).

(** The result recorded for a scenario that completed with [c]. *)
Definition recorded (c : TestRunner.Completion TestRunner.TestResult)
    : TestRunner.TestResult :=
  match c with
  | TestRunner.Normal r => r
  | TestRunner.Throw e =>
      TestRunner.mkResult false (str "Error: " ++ TestRunner.toString e) None
  end.

(** The results that the loop has collected after the scenarios [tcs],
    started with [results] on page [b]. *)
Fixpoint loopResults (tcs : list (TestRunner.TestCase Dom))
    (results : gmap jsstring TestRunner.TestResult) (b : TestRunner.Browser Dom)
    : gmap jsstring TestRunner.TestResult :=
  match tcs with
  | [] => results
  | tc :: r =>
      loopResults r (<[TestRunner.tc_id tc := recorded (outcome tc b)]> results)
                  (pageAfter b tc)
  end.

End RunAllSpec.

(** Three scenarios on a page whose document is a log of what ran: the
    second one throws. *)
Definition logging (k : string) (c : TestRunner.Completion TestRunner.TestResult)
    : TestRunner.TestCase (list jsstring) :=
  TestRunner.mkTestCase (str k) (str k) (str "") TestRunner.form
    (λ _ b, (c, TestRunner.mkBrowser (TestRunner.dom b ++ [str k])
                  (TestRunner.app b) (TestRunner.world b))).

Definition okResult : TestRunner.TestResult :=
  TestRunner.mkResult true (str "ok") None.

Definition threeScenarios : list (TestRunner.TestCase (list jsstring)) :=
  [logging "first" (TestRunner.Normal okResult);
   logging "second"
     (TestRunner.Throw (TestRunner.ErrorObject (str "TypeError") (str "boom")));
   logging "third" (TestRunner.Normal okResult)].

Definition emptyPage : TestRunner.Browser (list jsstring) :=
  TestRunner.mkBrowser [] TestRunner.initialState worldFrozen.

Definition noSettle (ms : nat) (b : TestRunner.Browser (list jsstring))
    : TestRunner.Browser (list jsstring) := b.

(** ** More vocabulary for the task form *)

(** The constraints that the three validation rules put on a payload. *)
Definition validPayload (d : TaskFormData) : Prop :=
  (3 ≤ length (trim (fd_title d)) ∧ length (trim (fd_title d)) ≤ 100) ∧
  length (fd_description d) ≤ 500 ∧
  (fd_priority d = str "low" ∨ fd_priority d = str "medium" ∨
   fd_priority d = str "high").

(** The events a user produces on the rendered form. The inputs are
    controlled: when a field loses focus, the value its blur event carries
    is the value the form holds for it. The seeding effect runs on the
    first render. *)
Definition userEvent (p : Props) (s : FormState) (ev : Event) : Prop :=
  match ev with
  | Mount => s = initialState p
  | Change _ _ => True
  | Blur name value => value = getValue (formData s) name
  | Submit => True
  end.

(** The states a user can bring the form to. *)
Inductive interactive (p : Props) : FormState → Prop :=
  | int_init : interactive p (initialState p)
  | int_commit s ev s' :
      interactive p s → userEvent p s ev →
      Commit s' ∈ (dispatch p ev s).1 → interactive p s'.

(** A title typed with blanks around it. *)
Definition paddedTitle : FormState :=
  mkForm (mkFormData (str "  Buy milk ") (str "") (str "medium")) noErrors ∅.

(** A form seeded with a description and a priority but no title. *)
Definition seededDescription : Props :=
  mkProps (Some (mkPartial None (Some (str "Weekly chores")) (Some (str "high")))).

(** ** More vocabulary for the task collection *)

(** Every reference of the array denotes an object. *)
Definition allocated (h : gmap loc Task) (ls : list loc) : Prop :=
  ∀ l, l ∈ ls → is_Some (h !! l).

(** The ids of the tasks of the array, in order. *)
Definition idsOf (h : gmap loc Task) (ls : list loc) : list (option jsstring) :=
  (λ l, id <$> h !! l) <$> ls.

(** Two task objects that differ at most in [updatedAt]. *)
Definition sameButUpdatedAt (t t' : Task) : Prop :=
  id t' = id t ∧ task_title t' = task_title t ∧
  task_description t' = task_description t ∧ completed t' = completed t ∧
  task_priority t' = task_priority t ∧ createdAt t' = createdAt t.

(** ** The page as a state machine *)

(** What can happen to the page: the form submits a payload, the oldest
    creation timer fires, a task's checkbox or delete button is used. *)
Inductive PageEvent :=
  | Submitted (taskData : TaskFormData)
  | TimerFired
  | Toggled (target : jsstring)
  | Deleted (target : jsstring).

Definition pageStep (ev : PageEvent) (c : Page.State * World) : Page.State * World :=
  match ev with
  | Submitted taskData => (Page.handleCreateTask taskData c.1, c.2)
  | TimerFired => Page.fireTimer c.1 c.2
  | Toggled target => Page.handleToggleComplete target c.1 c.2
  | Deleted target => Page.handleDeleteTask target c.1 c.2
  end.

(** The states of the page, started in the world [w0]. *)
Inductive pageReachable (w0 : World) : Page.State * World → Prop :=
  | page_init : pageReachable w0 (Page.initialState, w0)
  | page_step ev c : pageReachable w0 c → pageReachable w0 (pageStep ev c).

(** [n] timers fire, one after the other. *)
Fixpoint fireTimers (n : nat) (c : Page.State * World) : Page.State * World :=
  match n with
  | 0 => c
  | S n => fireTimers n (pageStep TimerFired c)
  end.

(** The task at [l] got its id from reading number [c] of the clock, its
    [createdAt] from the next reading and its [updatedAt] from that one or
    from a later reading that has been made. *)
Definition stamped (w : World) (l : loc) (c : nat) : Prop :=
  ∃ t j, heap w !! l = Some t ∧ id t = taskId (clock w c) ∧
         createdAt t = clock w (S c) ∧ updatedAt t = clock w j ∧
         S c ≤ j ∧ j < ticks w.

Definition newer (w : World) (l1 l2 : loc) : Prop :=
  ∃ c1 c2, stamped w l1 c1 ∧ stamped w l2 c2 ∧ c2 < c1.

Definition pageInvariant (w0 : World) (c : Page.State * World) : Prop :=
  clock c.2 = clock w0 ∧
  NoDup (Page.tasks c.1) ∧
  Forall (λ l, ∃ k, stamped c.2 l k) (Page.tasks c.1) ∧
  StronglySorted (newer c.2) (Page.tasks c.1).

(** A toggle of [target] turned the reference [l] into [l'] on the way
    from world [w] to world [w']. *)
Definition toggledRef (target : jsstring) (w w' : World) (l l' : loc) : Prop :=
  ∃ t, heap w !! l = Some t ∧
       if decide (id t = target) then
         ∃ k, (ticks w ≤ k ∧ k < ticks w') ∧
              heap w' !! l' = Some (toggled t (clock w k))
       else l' = l ∧ heap w' !! l = Some t.

(** An empty world with a clock that advances at every reading, and the
    page after one creation and one toggle of the new task. *)
Definition pageAfterCreateAndToggle : Page.State * World :=
  pageStep (Toggled (str "task-1700000000000"))
    (pageStep TimerFired
       (pageStep (Submitted payload1) (Page.initialState, worldTicking))).

(** The page after two creations in the same world. *)
Definition pageAfterTwoCreations : Page.State * World :=
  pageStep TimerFired
    (pageStep TimerFired
       (pageStep (Submitted payload2)
          (pageStep (Submitted payload1) (Page.initialState, worldTicking)))).

(** ** More vocabulary for the test runner *)

(** The result stored by a single run for a scenario that completed
    with [c]. *)
Definition recordedSingle (c : TestRunner.Completion TestRunner.TestResult)
    : TestRunner.TestResult :=
  match c with
  | TestRunner.Normal r => r
  | TestRunner.Throw e =>
      TestRunner.mkResult false
        (str "Error ejecutando test: " ++ TestRunner.toString e) None
  end.

(** A state of the runner with one passed and one failed result. *)
Definition mixedResults : TestRunner.State :=
  TestRunner.mkState [] None
    (<[str "form-validation-required" := okResult]>
       (<[str "list-delete-task" :=
            TestRunner.mkResult false (str "Error al eliminar tarea") None]> ∅))
    false None.

(** The step from page [b] to page [b'] wrote to no task object. *)
Definition keepsObjects {Dom} (b b' : TestRunner.Browser Dom) : Prop :=
  ∀ l t, heap (TestRunner.world b) !! l = Some t →
         heap (TestRunner.world b') !! l = Some t.

(** A page that shows the two sample tasks, a document in which every
    query finds the control of the first task, and clicks that do what the
    list's handlers do. *)
Definition runnerPage : TestRunner.Browser unit :=
  TestRunner.mkBrowser tt runner0 world0.

Definition runnerContext : TestRunner.TestContext :=
  TestRunner.mkContext [1%positive; 2%positive] None.

Definition noWait (ms : nat) (b : TestRunner.Browser unit) : TestRunner.Browser unit := b.

Definition findFirstControl (selector : jsstring)
    : TestRunner.Async unit (option jsstring) :=
  λ b, (TestRunner.Normal (Some (str "task-1")), b).

Definition clickDelete (target : jsstring) : TestRunner.Async unit unit :=
  λ b, let r := TestRunner.handleDeleteTask target (TestRunner.app b)
                  (TestRunner.world b) in
       (TestRunner.Normal tt, TestRunner.mkBrowser (TestRunner.dom b) r.1 r.2).

Definition clickToggle (target : jsstring) : TestRunner.Async unit unit :=
  λ b, let r := TestRunner.handleToggleComplete target (TestRunner.app b)
                  (TestRunner.world b) in
       (TestRunner.Normal tt, TestRunner.mkBrowser (TestRunner.dom b) r.1 r.2).

(** * Properties *)

(** ** The task form *)

(** *** Field validation *)

Lemma messages_nonempty :
  truthy (Some msg_required) = true ∧ truthy (Some msg_too_short) = true ∧
  truthy (Some msg_too_long) = true ∧ truthy (Some msg_description) = true ∧
  truthy (Some msg_priority) = true.
Proof. repeat split; reflexivity. Qed.

Lemma title_messages_distinct :
  msg_required ≠ msg_too_short ∧ msg_required ≠ msg_too_long ∧
  msg_too_short ≠ msg_too_long.
Proof. repeat split; intros H; vm_compute in H; discriminate H. Qed.

(** Every message that [validateField] returns is a truthy string, so
    "the field has an error" and "the error is truthy" coincide. *)
Lemma validateField_truthy (name : Field) (value : jsstring) :
  truthy (validateField name value) = bool_decide (validateField name value ≠ None).
Proof.
  destruct name; simpl.
  - destruct (trim value) as [|a u] eqn:E; simpl; [done|].
    destruct (S (length u) <? 3); [done|].
    destruct (100 <? S (length u)); done.
  - destruct (500 <? length value); done.
  - destruct (includes _ value); done.
Qed.

(** C1. For every title [t], validation reports "required" exactly when
    [trim t] is empty, "too short" exactly when [trim t] is not empty and
    shorter than 3, "too long" exactly when [trim t] is longer than 100, and
    nothing otherwise. The result is a single message and the three messages
    differ, so at most one of the three errors holds. *)
Theorem validateField_title_spec (t : jsstring) :
  (validateField title t = Some msg_required ↔ trim t = []) ∧
  (validateField title t = Some msg_too_short ↔
     trim t ≠ [] ∧ length (trim t) < 3) ∧
  (validateField title t = Some msg_too_long ↔ length (trim t) > 100) ∧
  (validateField title t = None ↔
     trim t ≠ [] ∧ ¬ length (trim t) < 3 ∧ ¬ length (trim t) > 100) ∧
  (msg_required ≠ msg_too_short ∧ msg_required ≠ msg_too_long ∧
   msg_too_short ≠ msg_too_long).
Proof.
  destruct title_messages_distinct as (Hrs & Hrl & Hsl).
  unfold validateField.
  destruct (trim t) as [|a u] eqn:E; simpl truthy; simpl negb; cbv iota.
  - simpl. repeat split; try done; try (intros; lia); try (intros [? ?]; done).
  - destruct (Nat.ltb_spec (length (a :: u)) 3) as [H3|H3].
    + repeat split; try done; try (intros; exfalso; simpl in *; lia);
        try (intros [=]; congruence); try (intros (? & ? & ?); done).
    + destruct (Nat.ltb_spec 100 (length (a :: u))) as [Hl|Hl].
      * repeat split; try done; try (intros; exfalso; simpl in *; lia);
          try (intros [=]; congruence); try (intros (? & ? & ?); exfalso; lia).
      * repeat split; try done; try (intros; exfalso; simpl in *; lia);
          try (intros [? ?]; exfalso; lia); lia.
Qed.

(** *** The submit protocol *)

Lemma validateForm_errors (s : FormState) (name : Field) :
  getError (validateForm s).2 name = validateField name (getValue (formData s) name).
Proof. by destruct name. Qed.

Lemma validateForm_isValid (s : FormState) :
  (validateForm s).1 = true ↔ ∀ name, ¬ fails s name.
Proof.
  unfold validateForm, fails. cbn [fst existsb err_title err_description err_priority].
  rewrite !validateField_truthy, orb_false_r, negb_true_iff, !orb_false_iff.
  rewrite !bool_decide_eq_false. split.
  - intros (Ht & Hd & Hp) [] ; simpl; tauto.
  - intros H. repeat split.
    + apply (H title). + apply (H description). + apply (H priority).
Qed.

Lemma validateForm_invalid (s : FormState) :
  (validateForm s).1 = false ↔ ∃ name, fails s name.
Proof.
  split.
  - intros Hf. destruct (decide (fails s title)) as [|Ht]; [by eexists|].
    destruct (decide (fails s description)) as [|Hd]; [by eexists|].
    destruct (decide (fails s priority)) as [|Hp]; [by eexists|].
    assert ((validateForm s).1 = true) as Hv; [|congruence].
    apply validateForm_isValid. by intros [].
  - intros [name Hn]. apply not_true_is_false. intros Hv.
    by apply (proj1 (validateForm_isValid s) Hv name).
Qed.

Lemma validateForm_valid_errors (s : FormState) :
  (validateForm s).1 = true → (validateForm s).2 = noErrors.
Proof.
  intros Hv. pose proof (proj1 (validateForm_isValid s) Hv) as H.
  unfold fails in H.
  pose proof (H title) as Ht. pose proof (H description) as Hd.
  pose proof (H priority) as Hp.
  apply dec_stable in Ht, Hd, Hp.
  unfold validateForm, noErrors. cbn [snd]. f_equal; [exact Ht|exact Hd|exact Hp].
Qed.

Lemma dispatch_submit_invalid (p : Props) (s : FormState) :
  (validateForm s).1 = false →
  dispatch p Submit s = ([PreventDefault; Commit (flushed s)], flushed s).
Proof.
  intros Hv. unfold dispatch, runHandler, handleSubmit, flushed.
  destruct (validateForm s) as [valid errs]. simpl in Hv. subst valid.
  reflexivity.
Qed.

Lemma dispatch_submit_valid_reset (p : Props) (s : FormState) :
  (validateForm s).1 = true →
  truthy (pd_title (initialData p)) = false →
  dispatch p Submit s =
    ([PreventDefault; Commit (flushed s); OnSubmit (formData s); Commit resetState],
     resetState).
Proof.
  intros Hv Hseed. unfold dispatch, runHandler, handleSubmit, flushed.
  destruct (validateForm s) as [valid errs]. simpl in Hv. subst valid.
  cbn [fst snd negb]. rewrite Hseed. reflexivity.
Qed.

Lemma dispatch_submit_valid_keep (p : Props) (s : FormState) :
  (validateForm s).1 = true →
  truthy (pd_title (initialData p)) = true →
  dispatch p Submit s =
    ([PreventDefault; Commit (flushed s); OnSubmit (formData s)], flushed s).
Proof.
  intros Hv Hseed. unfold dispatch, runHandler, handleSubmit, flushed.
  destruct (validateForm s) as [valid errs]. simpl in Hv. subst valid.
  cbn [fst snd negb]. rewrite Hseed. reflexivity.
Qed.

Lemma newTouched_lookup (name : Field) : newTouched !! name = Some true.
Proof. by destruct name. Qed.

(** C2. On a submit event: if one of the three fields fails validation,
    [onSubmit] is not invoked and the error state holds the validation
    errors; if all three pass, [onSubmit] is invoked exactly once, with the
    current field values. *)
Theorem handleSubmit_protocol (p : Props) (s : FormState) :
  ((∃ name, fails s name) →
     submitted (dispatch p Submit s).1 = [] ∧
     ∀ name, getError (errors (dispatch p Submit s).2) name
             = validateField name (getValue (formData s) name)) ∧
  ((∀ name, ¬ fails s name) →
     submitted (dispatch p Submit s).1 = [formData s]).
Proof.
  split.
  - intros Hf%validateForm_invalid.
    rewrite (dispatch_submit_invalid p s Hf). split; [done|].
    intros name. apply validateForm_errors.
  - intros Hv%validateForm_isValid.
    destruct (truthy (pd_title (initialData p))) eqn:Hseed.
    + by rewrite (dispatch_submit_valid_keep p s Hv Hseed).
    + by rewrite (dispatch_submit_valid_reset p s Hv Hseed).
Qed.

(** C3. After a submit event with invalid data the handler shows exactly
    one new state, and in it all three fields are touched and the error
    mapping is the full new one: no state with only part of the update is
    ever shown. *)
Theorem handleSubmit_invalid_atomic (p : Props) (s : FormState) :
  (∃ name, fails s name) →
  commits (dispatch p Submit s).1 = [(dispatch p Submit s).2] ∧
  ∀ name,
    touched (dispatch p Submit s).2 !! name = Some true ∧
    getError (errors (dispatch p Submit s).2) name
      = validateField name (getValue (formData s) name).
Proof.
  intros Hf%validateForm_invalid.
  rewrite (dispatch_submit_invalid p s Hf). split; [done|].
  intros name. split; [apply newTouched_lookup | apply validateForm_errors].
Qed.

Lemma typedValid_passes (name : Field) : ¬ fails typedValid name.
Proof. intros H. apply H. by destruct name. Defined.

Lemma empty_title_fails : fails (initialState createProps) title.
Proof. intros H. discriminate H. Defined.

Lemma handleSubmit_protocol_witness :
  submitted (dispatch createProps Submit (initialState createProps)).1 = [] ∧
  submitted (dispatch createProps Submit typedValid).1 = [formData typedValid].
Proof.
  split.
  - apply (proj1 (handleSubmit_protocol createProps (initialState createProps))).
    exists title. exact empty_title_fails.
  - apply (proj2 (handleSubmit_protocol createProps typedValid)).
    exact typedValid_passes.
Defined.

Lemma handleSubmit_invalid_atomic_witness :
  commits (dispatch createProps Submit (initialState createProps)).1
    = [(dispatch createProps Submit (initialState createProps)).2] ∧
  touched (dispatch createProps Submit (initialState createProps)).2 !! title
    = Some true.
Proof.
  destruct (handleSubmit_invalid_atomic createProps (initialState createProps))
    as [Hc Hall].
  - exists title. exact empty_title_fails.
  - split; [exact Hc | exact (proj1 (Hall title))].
Defined.

(** *** Errors and the touched flags *)

Lemma commit_of_dispatch (p : Props) (ev : Event) (s s' : FormState) :
  Commit s' ∈ (dispatch p ev s).1 →
  match ev with
  | Mount => s' = mkForm (initialFormData p) (errors s) (touched s)
  | Change name value =>
      s' = mkForm (setValue name value (formData s))
                  (if isTouched (touched s) name
                   then setError name (validateField name value) (errors s)
                   else errors s)
                  (touched s)
  | Blur name value =>
      s' = mkForm (formData s) (setError name (validateField name value) (errors s))
                  (<[name := true]> (touched s))
  | Submit => s' = flushed s ∨ s' = resetState
  end.
Proof.
  destruct ev as [|name value|name value|].
  - cbn. intros H%list_elem_of_singleton. by injection H.
  - unfold dispatch, runHandler, handleInputChange.
    destruct (isTouched (touched s) name); cbn;
      intros H%list_elem_of_singleton; by injection H.
  - cbn. intros H%list_elem_of_singleton. by injection H.
  - destruct (validateForm s).1 eqn:Hv.
    + destruct (truthy (pd_title (initialData p))) eqn:Hseed.
      * rewrite (dispatch_submit_valid_keep p s Hv Hseed). cbn [fst].
        rewrite !elem_of_cons, elem_of_nil.
        intros [H|[H|[H|[]]]]; try discriminate H. left. by injection H.
      * rewrite (dispatch_submit_valid_reset p s Hv Hseed). cbn [fst].
        rewrite !elem_of_cons, elem_of_nil.
        intros [H|[H|[H|[H|[]]]]]; try discriminate H.
        -- left. by injection H.
        -- right. by injection H.
    + rewrite (dispatch_submit_invalid p s Hv). cbn [fst].
      rewrite !elem_of_cons, elem_of_nil.
      intros [H|[H|[]]]; try discriminate H. left. by injection H.
Qed.

Lemma getError_setError (e : TaskFormErrors) (n m : Field) (v : option jsstring) :
  getError (setError n v e) m = if decide (n = m) then v else getError e m.
Proof. by destruct n, m. Qed.

Lemma isTouched_insert (t : gmap Field bool) (n m : Field) :
  isTouched (<[n := true]> t) m = if decide (n = m) then true else isTouched t m.
Proof.
  unfold isTouched. destruct (decide (n = m)) as [->|Hne].
  - by rewrite lookup_insert_eq.
  - by rewrite lookup_insert_ne.
Qed.

(** In every state that is shown, a field that is not touched has no stored
    error either: errors are only ever written for touched fields. *)
Lemma untouched_has_no_stored_error (p : Props) (s : FormState) :
  observable p s →
  ∀ name, isTouched (touched s) name = false → getError (errors s) name = None.
Proof.
  induction 1 as [|s ev s' Hobs IH Hc]; intros name Hu.
  - by destruct name.
  - apply commit_of_dispatch in Hc.
    destruct ev as [|n v|n v|]; subst; cbn [touched errors] in *.
    + by apply IH.
    + destruct (isTouched (touched s) n) eqn:Ht; [|by apply IH].
      rewrite getError_setError. destruct (decide (n = name)) as [->|]; [|by apply IH].
      congruence.
    + rewrite isTouched_insert in Hu. rewrite getError_setError.
      destruct (decide (n = name)); [done | by apply IH].
    + destruct Hc as [-> | ->]; cbn [touched errors] in *.
      * unfold isTouched in Hu. by rewrite newTouched_lookup in Hu.
      * by destruct name.
Qed.

(** C4. In every state that is shown, no error is rendered for a field
    whose touched flag is false, whatever the field's value; the error
    state does not even hold an error for such a field. *)
Theorem untouched_field_renders_no_error (p : Props) (s : FormState) (name : Field) :
  observable p s →
  isTouched (touched s) name = false →
  renderedError s name = None ∧ getError (errors s) name = None.
Proof.
  intros Hobs Hu. split.
  - unfold renderedError. by rewrite Hu, andb_false_r.
  - by apply (untouched_has_no_stored_error p).
Qed.

Lemma untouched_field_renders_no_error_witness :
  fails (initialState createProps) title ∧
  renderedError (initialState createProps) title = None.
Proof.
  split; [exact empty_title_fails|].
  apply (proj1 (untouched_field_renders_no_error createProps
                  (initialState createProps) title (obs_init createProps) eq_refl)).
Defined.

(** *** Reset after a successful submit *)

(** C5, as stated, fails: a seed title was supplied (the empty string), the
    submit succeeds, and yet the field values and the touched flags are not
    left as they were: the form is reset. *)
Lemma supplied_empty_seed_title_still_resets :
  pd_title (initialData seededEmpty) = Some (str "") ∧
  (∀ name, ¬ fails typedValid name) ∧
  submitted (dispatch seededEmpty Submit typedValid).1 = [formData typedValid] ∧
  formData (dispatch seededEmpty Submit typedValid).2 ≠ formData typedValid ∧
  formData (dispatch seededEmpty Submit typedValid).2 = defaultFormData ∧
  touched (dispatch seededEmpty Submit typedValid).2 = ∅.
Proof.
  split; [reflexivity|]. split; [exact typedValid_passes|].
  rewrite (dispatch_submit_valid_reset seededEmpty typedValid);
    [|by apply validateForm_isValid, typedValid_passes|reflexivity].
  repeat split. intros H. discriminate H.
Qed.

(** C5, amended. After a successful submit: if no seed title was provided,
    or the seed title is the empty string, the field values are reset to
    the defaults, the touched flags are cleared and the errors are cleared;
    if a non-empty seed title was provided, the reset step leaves the field
    values, the touched flags and the errors as they were when it was
    reached (the typed values, every field touched, no errors). *)
Theorem handleSubmit_reset_step (p : Props) (s : FormState) :
  (∀ name, ¬ fails s name) →
  (pd_title (initialData p) = None ∨ pd_title (initialData p) = Some [] →
     (dispatch p Submit s).2
       = mkForm (mkFormData (str "") (str "") (str "medium")) noErrors ∅) ∧
  (∀ t, pd_title (initialData p) = Some t → t ≠ [] →
     (dispatch p Submit s).2 = mkForm (formData s) noErrors newTouched ∧
     (dispatch p Submit s).2 = flushed s).
Proof.
  intros Hv%validateForm_isValid. split.
  - intros Hseed. rewrite (dispatch_submit_valid_reset p s Hv); [done|].
    by destruct Hseed as [-> | ->].
  - intros t Ht Hne. rewrite (dispatch_submit_valid_keep p s Hv).
    + unfold flushed. by rewrite (validateForm_valid_errors s Hv).
    + rewrite Ht. by destruct t.
Qed.

Lemma handleSubmit_reset_step_witness :
  (dispatch seededEmpty Submit typedValid).2
    = mkForm (mkFormData (str "") (str "") (str "medium")) noErrors ∅ ∧
  (dispatch seededTitle Submit typedValid).2
    = mkForm (formData typedValid) noErrors newTouched.
Proof.
  split.
  - apply (proj1 (handleSubmit_reset_step seededEmpty typedValid typedValid_passes)).
    right. reflexivity.
  - apply (proj2 (handleSubmit_reset_step seededTitle typedValid typedValid_passes)
             (str "Old title")).
    + reflexivity.
    + intros H. discriminate H.
Defined.

(** C10. Whether a successful submit resets the form is decided by the
    truthiness of [initialData.title]: with [initialData] omitted, or with a
    seed whose title is missing or the empty string, the submit does
    exactly what it does in create mode and the form is reset; with any
    non-empty seed title there is no reset. *)
Theorem reset_follows_seed_title_truthiness (p : Props) (s : FormState) :
  (∀ name, ¬ fails s name) →
  (prop_initialData p = None ∨
   (∃ d, prop_initialData p = Some d ∧ (pd_title d = None ∨ pd_title d = Some [])) →
     dispatch p Submit s = dispatch createProps Submit s ∧
     (dispatch p Submit s).2 = resetState ∧
     commits (dispatch p Submit s).1 = [flushed s; resetState]) ∧
  (∀ d t, prop_initialData p = Some d → pd_title d = Some t → t ≠ [] →
     (dispatch p Submit s).2 = flushed s ∧
     commits (dispatch p Submit s).1 = [flushed s]).
Proof.
  intros Hv%validateForm_isValid. split.
  - intros Hseed.
    assert (truthy (pd_title (initialData p)) = false) as Hfalsy.
    { unfold initialData.
      destruct Hseed as [-> | (d & -> & [Hd | Hd])]; simpl; by try rewrite Hd. }
    rewrite (dispatch_submit_valid_reset p s Hv Hfalsy).
    by rewrite (dispatch_submit_valid_reset createProps s Hv).
  - intros d t Hd Ht Hne.
    rewrite (dispatch_submit_valid_keep p s Hv); [done|].
    unfold initialData. rewrite Hd. simpl. rewrite Ht. by destruct t.
Qed.

Lemma reset_follows_seed_title_truthiness_witness :
  dispatch seededEmpty Submit typedValid = dispatch createProps Submit typedValid ∧
  commits (dispatch seededTitle Submit typedValid).1 = [flushed typedValid].
Proof.
  split.
  - apply (proj1 (reset_follows_seed_title_truthiness
                    seededEmpty typedValid typedValid_passes)).
    right. eexists. split; [reflexivity|]. right. reflexivity.
  - apply (proj2 (reset_follows_seed_title_truthiness
                    seededTitle typedValid typedValid_passes)
             (mkPartial (Some (str "Old title")) None None) (str "Old title")).
    + reflexivity.
    + reflexivity.
    + intros H. discriminate H.
Defined.

(** ** The task collection *)

(** *** Toggle *)

Lemma mapJs_cons {A B} (f : A → Js B) (x : A) (r : list A) (w : World) :
  mapJs f (x :: r) w =
    let '(y, w1) := f x w in
    let '(ys, w2) := mapJs f r w1 in
    (y :: ys, w2).
Proof.
  cbn [mapJs]. unfold mbind, Js_bind, jbind, mret, Js_ret, jret.
  destruct (f x w) as [y w1]. by destruct (mapJs f r w1).
Qed.

Lemma toggleOne_spec (target : jsstring) (l : loc) (w : World) :
  match heap w !! l with
  | Some t =>
      if decide (id t = target) then
        let l' := fresh (dom (heap w)) in
        toggleOne target l w =
          (l', mkWorld (<[l' := toggled t (clock w (ticks w))]> (heap w))
                       (clock w) (S (ticks w)))
      else toggleOne target l w = (l, w)
  | None => toggleOne target l w = (l, w)
  end.
Proof.
  unfold toggleOne, mbind, Js_bind, jbind, load.
  destruct (heap w !! l) as [t|]; [|done].
  destruct (decide (id t = target)); done.
Qed.

Lemma extends_refl (w : World) : extends w w.
Proof. by repeat split. Qed.

Lemma extends_trans (w1 w2 w3 : World) :
  extends w1 w2 → extends w2 w3 → extends w1 w3.
Proof.
  intros (Hc1 & Ht1 & Hh1) (Hc2 & Ht2 & Hh2). repeat split.
  - congruence.
  - lia.
  - eauto.
Qed.

Lemma extends_dom (w w' : World) (l : loc) :
  extends w w' → l ∉ dom (heap w') → l ∉ dom (heap w).
Proof.
  intros (_ & _ & Hh) Hl [t Ht]%elem_of_dom. apply Hl, elem_of_dom.
  exists t. by apply Hh.
Qed.

Lemma fresh_lookup_ne (h : gmap loc Task) (l : loc) (t : Task) :
  h !! l = Some t → fresh (dom h) ≠ l.
Proof.
  intros Hl Heq. apply (is_fresh (dom h)). rewrite Heq. apply elem_of_dom. eauto.
Qed.

Lemma toggleOne_extends (target : jsstring) (l : loc) (w : World) :
  extends w (toggleOne target l w).2.
Proof.
  pose proof (toggleOne_spec target l w) as H.
  destruct (heap w !! l) as [t|]; [|rewrite H; apply extends_refl].
  destruct (decide (id t = target)); [|rewrite H; apply extends_refl].
  cbv zeta in H. rewrite H. repeat split; cbn; [lia|].
  intros l0 t0 Hl0. rewrite lookup_insert_ne; [done|]. by eapply fresh_lookup_ne.
Qed.

Lemma mapJs_toggle_extends (target : jsstring) (ls : list loc) (w : World) :
  extends w (mapJs (toggleOne target) ls w).2.
Proof.
  revert w. induction ls as [|l ls IH]; intros w; [apply extends_refl|].
  rewrite mapJs_cons. pose proof (toggleOne_extends target l w) as H1.
  destruct (toggleOne target l w) as [l1 w1]. specialize (IH w1).
  destruct (mapJs (toggleOne target) ls w1) as [ls2 w2].
  by eapply extends_trans.
Qed.

Lemma mapJs_toggle_effect (target : jsstring) (ls : list loc) (w : World) :
  toggle_effect target ls (mapJs (toggleOne target) ls w).1
                w (mapJs (toggleOne target) ls w).2.
Proof.
  split; [|split].
  - revert w. induction ls as [|l ls IH]; intros w; [done|].
    rewrite mapJs_cons. destruct (toggleOne target l w) as [l1 w1].
    specialize (IH w1). destruct (mapJs (toggleOne target) ls w1) as [ls2 w2].
    cbn in *. by rewrite IH.
  - apply mapJs_toggle_extends.
  - revert w. induction ls as [|l0 ls IH]; intros w i l t Hi Hl; [done|].
    rewrite mapJs_cons.
    pose proof (toggleOne_spec target l0 w) as H1.
    pose proof (toggleOne_extends target l0 w) as E1.
    destruct (toggleOne target l0 w) as [l1 w1] eqn:E0.
    pose proof (mapJs_toggle_extends target ls w1) as E2.
    specialize (IH w1).
    destruct (mapJs (toggleOne target) ls w1) as [ls2 w2]. cbn [fst snd] in *.
    destruct i as [|i]; cbn [lookup list_lookup] in *.
    + injection Hi as ->. rewrite Hl in H1.
      destruct (decide (id t = target)) as [Hid|Hid].
      * cbv zeta in H1. injection H1 as -> ->.
        exists (fresh (dom (heap w))), (ticks w). split; [done|].
        split; [apply is_fresh|]. destruct E2 as (_ & Ht2 & Hh2). cbn in Ht2.
        split; [lia|]. apply Hh2. cbn. by rewrite lookup_insert_eq.
      * injection H1 as -> ->. split; [done|]. destruct E2 as (_ & _ & Hh2). eauto.
    + destruct E1 as (Hc1 & Ht1 & Hh1).
      specialize (IH i l t Hi (Hh1 _ _ Hl)).
      destruct (decide (id t = target)); [|done].
      destruct IH as (l' & k & Hl' & Hfresh & Hk & Hnew).
      exists l', k. split; [done|]. split.
      { eapply extends_dom; [|done]. by repeat split. }
      split; [lia|]. by rewrite <-Hc1.
Qed.

(** C6. In both components the toggle gives every task whose id matches a
    new object, allocated at a reference that was not in use, equal to the
    old one except that [completed] is flipped and [updatedAt] is a reading
    of the clock taken during the toggle; every task whose id does not
    match stays the same reference to the same object; and every object
    that existed before (the old version of an affected task included) is
    left as it was. *)
Theorem handleToggleComplete_frame (target : jsstring) (w : World) :
  (∀ st, toggle_effect target (Page.tasks st)
           (Page.tasks (Page.handleToggleComplete target st w).1)
           w (Page.handleToggleComplete target st w).2) ∧
  (∀ st, toggle_effect target (TestRunner.tasks st)
           (TestRunner.tasks (TestRunner.handleToggleComplete target st w).1)
           w (TestRunner.handleToggleComplete target st w).2).
Proof.
  split; intros st.
  - unfold Page.handleToggleComplete, mbind, Js_bind, jbind.
    pose proof (mapJs_toggle_effect target (Page.tasks st) w) as H.
    by destruct (mapJs (toggleOne target) (Page.tasks st) w).
  - unfold TestRunner.handleToggleComplete, mbind, Js_bind, jbind.
    pose proof (mapJs_toggle_effect target (TestRunner.tasks st) w) as H.
    by destruct (mapJs (toggleOne target) (TestRunner.tasks st) w).
Qed.

Lemma handleToggleComplete_frame_witness :
  Page.tasks (Page.handleToggleComplete (str "task-1") page0 world0).1 !! 1
    = Some 2%positive ∧
  heap (Page.handleToggleComplete (str "task-1") page0 world0).2 !! 2%positive
    = Some taskB ∧
  ∃ l' k,
    Page.tasks (Page.handleToggleComplete (str "task-1") page0 world0).1 !! 0
      = Some l' ∧
    heap (Page.handleToggleComplete (str "task-1") page0 world0).2 !! l'
      = Some (toggled taskA (clock world0 k)) ∧
    heap (Page.handleToggleComplete (str "task-1") page0 world0).2 !! 1%positive
      = Some taskA.
Proof.
  destruct (handleToggleComplete_frame (str "task-1") world0) as [HP _].
  destruct (HP page0) as (_ & Hframe & Hidx).
  pose proof (Hidx 1 2%positive taskB eq_refl eq_refl) as HB.
  pose proof (Hidx 0 1%positive taskA eq_refl eq_refl) as HA.
  destruct (decide (id taskB = str "task-1")) as [Heq|_]; [discriminate Heq|].
  destruct (decide (id taskA = str "task-1")) as [_|Hne]; [|by destruct Hne].
  destruct HA as (l' & k & Hl' & _ & _ & Hnew).
  split; [exact (proj1 HB)|]. split; [exact (proj2 HB)|].
  exists l', k. split; [exact Hl'|]. split; [exact Hnew|].
  apply Hframe. reflexivity.
Defined.

(** *** Delete *)

Lemma keepTask_matches (h : gmap loc Task) (target : jsstring) (l : loc) :
  keepTask h target l ↔ ¬ matches h target l.
Proof.
  unfold keepTask, matches. destruct (h !! l) as [t|].
  - rewrite bool_decide_spec. split.
    + intros Hne (t' & [= <-] & Hid). done.
    + intros Hn Hid. apply Hn. eauto.
  - split; [|done]. intros _ (t & Ht & _). discriminate Ht.
Qed.

Lemma filter_all {A} (P : A → Prop) `{∀ x, Decision (P x)} (l : list A) :
  (∀ x, x ∈ l → P x) → filter P l = l.
Proof.
  induction l as [|x l IH]; intros Hall; [done|].
  rewrite filter_cons_True by (apply Hall; left).
  f_equal. apply IH. intros y Hy. apply Hall. by right.
Qed.

Lemma filter_sublist_of {A} (P : A → Prop) `{∀ x, Decision (P x)} (l : list A) :
  filter P l `sublist_of` l.
Proof.
  induction l as [|x l IH]; [done|].
  rewrite filter_cons. destruct (decide (P x)).
  - by apply sublist_skip.
  - by apply sublist_cons.
Qed.

Lemma filter_greatest {A} (P : A → Prop) `{∀ x, Decision (P x)} (k l : list A) :
  k `sublist_of` l → (∀ x, x ∈ k → P x) → k `sublist_of` filter P l.
Proof.
  induction 1 as [|x k l Hkl IH|x k l Hkl IH]; intros Hall.
  - done.
  - rewrite filter_cons_True by (apply Hall; left).
    apply sublist_skip, IH. intros y Hy. apply Hall. by right.
  - rewrite filter_cons. destruct (decide (P x)).
    + by apply sublist_cons, IH.
    + by apply IH.
Qed.

Lemma filter_keepTask_effect (h : gmap loc Task) (target : jsstring) (ls : list loc) :
  delete_effect h target ls (filter (λ l, keepTask h target l) ls).
Proof.
  repeat split.
  - apply filter_all. intros l Hl. by apply keepTask_matches, H.
  - f_equal. apply filter_all. intros l Hl. by apply keepTask_matches, H.
  - apply filter_sublist_of.
  - intros l [Hk _]%list_elem_of_filter. by apply keepTask_matches.
  - intros k Hk Hall. apply filter_greatest; [done|].
    intros l Hl. by apply keepTask_matches, Hall.
Qed.

(** C7. In both components: deleting an id that no task has leaves the
    collection as it is, with the same length and the same tasks in the
    same order; otherwise the result is the collection with exactly the
    matching tasks left out and the remaining ones in their order. No task
    object changes. *)
Theorem handleDeleteTask_effect (target : jsstring) (w : World) :
  (∀ st, delete_effect (heap w) target (Page.tasks st)
           (Page.tasks (Page.handleDeleteTask target st w).1) ∧
         (Page.handleDeleteTask target st w).2 = w) ∧
  (∀ st, delete_effect (heap w) target (TestRunner.tasks st)
           (TestRunner.tasks (TestRunner.handleDeleteTask target st w).1) ∧
         (TestRunner.handleDeleteTask target st w).2 = w).
Proof.
  split; intros st; (split; [apply filter_keepTask_effect | reflexivity]).
Qed.

Lemma handleDeleteTask_effect_witness :
  Page.tasks (Page.handleDeleteTask (str "task-9") page0 world0).1
    = [1%positive; 2%positive] ∧
  [2%positive] `sublist_of`
    Page.tasks (Page.handleDeleteTask (str "task-1") page0 world0).1 ∧
  1%positive ∉ Page.tasks (Page.handleDeleteTask (str "task-1") page0 world0).1.
Proof.
  destruct (handleDeleteTask_effect (str "task-9") world0) as [H9 _].
  destruct (H9 page0) as [(Hsame & _) _].
  destruct (handleDeleteTask_effect (str "task-1") world0) as [H1 _].
  destruct (H1 page0) as [(_ & _ & Hgone & Hmax) _].
  split; [|split].
  - apply Hsame. intros l Hl (t & Ht & Hid).
    apply elem_of_cons in Hl as [-> | Hl];
      [|apply list_elem_of_singleton in Hl as ->];
      injection Ht as <-; discriminate Hid.
  - apply Hmax.
    + apply sublist_cons. reflexivity.
    + intros l ->%list_elem_of_singleton (t & Ht & Hid).
      injection Ht as <-. discriminate Hid.
  - intros Hin. apply (Hgone _ Hin). exists taskA. split; reflexivity.
Defined.

(** *** Create *)

Lemma newTask_spec (taskData : TaskFormData) (w : World) :
  newTask taskData w = (fresh (dom (heap w)), afterCreate taskData w).
Proof. reflexivity. Qed.

Lemma str_inj (a b : string) : str a = str b → a = b.
Proof.
  unfold str. intros H.
  apply (f_equal (fmap ascii_of_N)) in H.
  rewrite <-!list_fmap_compose in H.
  assert (∀ l : list ascii, (ascii_of_N ∘ (λ a, N_of_ascii a)) <$> l = l) as Hid.
  { intros l. rewrite <-(list_fmap_id l) at 2. apply list_fmap_ext.
    intros _ c _. apply ascii_N_embedding. }
  rewrite !Hid in H.
  rewrite <-(string_of_list_ascii_of_string a), <-(string_of_list_ascii_of_string b).
  by rewrite H.
Qed.

(** Two generated ids are equal exactly when the two readings of the clock
    they were made from are equal. *)
Lemma taskId_eq_iff (a b : Z) : taskId a = taskId b ↔ a = b.
Proof.
  split; [|by intros ->]. unfold taskId.
  intros H%app_inv_head%str_inj. by apply (inj pretty).
Qed.

(** What both components do on a creation, in any state and world: the new
    task is allocated at a reference that was not in use and put at the
    front; it is not completed and carries the payload; its id, [createdAt]
    and [updatedAt] are three successive readings of the clock. *)
Lemma handleCreateTask_spec (taskData : TaskFormData) (w : World) :
  (∀ st, TestRunner.handleCreateTask taskData st w =
     (TestRunner.mkState (fresh (dom (heap w)) :: TestRunner.tasks st)
        (TestRunner.selectedTest st) (TestRunner.testResults st)
        (TestRunner.isRunning st) (Some taskData),
      afterCreate taskData w)) ∧
  (∀ st, Page.createTaskCallback taskData st w =
     (Page.mkState (fresh (dom (heap w)) :: Page.tasks st) false (Page.timers st),
      afterCreate taskData w)) ∧
  (fresh (dom (heap w)) ∉ dom (heap w)) ∧
  heap (afterCreate taskData w) !! fresh (dom (heap w)) = Some (createdTask taskData w).
Proof.
  repeat split.
  - apply is_fresh.
  - apply lookup_insert_eq.
Qed.

(** C8 (defect). The id is made from the millisecond clock, and [createdAt]
    and [updatedAt] from two further readings of it. Two tasks created
    within one millisecond are two objects with the same id; and when the
    clock advances between the readings, [createdAt] and [updatedAt] of
    the new task differ. *)
Theorem handleCreateTask_id_collision :
  (∃ l1 l2 t1 t2,
     TestRunner.tasks createdTwice.1 = [l2; l1] ∧ l1 ≠ l2 ∧
     heap createdTwice.2 !! l1 = Some t1 ∧
     heap createdTwice.2 !! l2 = Some t2 ∧
     task_title t1 = str "Test Task Direct" ∧
     task_title t2 = str "Second task" ∧
     id t1 = str "task-1700000000000" ∧
     id t2 = str "task-1700000000000") ∧
  (∃ l t,
     TestRunner.tasks createdOnce.1 = [l] ∧
     heap createdOnce.2 !! l = Some t ∧
     createdAt t = 1700000000001%Z ∧
     updatedAt t = 1700000000002%Z).
Proof.
  split.
  - exists 1%positive, 2%positive,
      (createdTask payload1 worldFrozen),
      (createdTask payload2 (afterCreate payload1 worldFrozen)).
    repeat split; try done; by vm_compute.
  - exists 1%positive, (createdTask payload1 worldTicking).
    repeat split; by vm_compute.
Qed.

(** ** The visual test runner *)

Section RunAllProps.

Context {Dom : Type}.
Variable settle : nat → TestRunner.Browser Dom → TestRunner.Browser Dom.
Variable snap : TestRunner.State.

Lemma toString_carries_message (name msg : jsstring) :
  msg `suffix_of` TestRunner.toString (TestRunner.ErrorObject name msg).
Proof.
  destruct name as [|c name]; [done|]. destruct msg as [|d msg].
  - apply suffix_nil.
  - cbn [TestRunner.toString]. exists ((c :: name) ++ str ": ").
    by rewrite <-(assoc_L (++)).
Qed.

Lemma runAllStep_spec (results : gmap jsstring TestRunner.TestResult)
    (tc : TestRunner.TestCase Dom) (b : TestRunner.Browser Dom) :
  TestRunner.runAllStep settle snap results tc b =
    (TestRunner.Normal (<[TestRunner.tc_id tc := recorded (outcome snap tc b)]> results),
     pageAfter settle snap b tc).
Proof.
  unfold TestRunner.runAllStep, outcome, pageAfter, recorded, contextOf, highlighted.
  unfold mbind, TestRunner.Async_bind, TestRunner.abind, TestRunner.tryCatch,
    TestRunner.setSelectedTest, TestRunner.modifyApp, TestRunner.sleep,
    mret, TestRunner.Async_ret, TestRunner.aret.
  cbn [TestRunner.dom TestRunner.app TestRunner.world].
  by destruct (TestRunner.execute tc _ _) as [[r|e] b'].
Qed.

Lemma forOf_runAllStep (tcs : list (TestRunner.TestCase Dom))
    (results : gmap jsstring TestRunner.TestResult) (b : TestRunner.Browser Dom) :
  TestRunner.forOf tcs (TestRunner.runAllStep settle snap) results b =
    (TestRunner.Normal (loopResults settle snap tcs results b),
     foldl (pageAfter settle snap) b tcs).
Proof.
  revert results b. induction tcs as [|tc tcs IH]; intros results b; [done|].
  cbn [TestRunner.forOf foldl loopResults].
  unfold mbind, TestRunner.Async_bind, TestRunner.abind.
  rewrite runAllStep_spec. apply IH.
Qed.

Lemma loopResults_other (tcs : list (TestRunner.TestCase Dom))
    (results : gmap jsstring TestRunner.TestResult) (b : TestRunner.Browser Dom)
    (k : jsstring) :
  (∀ tc, tc ∈ tcs → TestRunner.tc_id tc ≠ k) →
  loopResults settle snap tcs results b !! k = results !! k.
Proof.
  revert results b. induction tcs as [|tc tcs IH]; intros results b Hk; [done|].
  cbn [loopResults]. rewrite IH.
  - apply lookup_insert_ne, Hk. by left.
  - intros tc' Hin. apply Hk. by right.
Qed.

Lemma loopResults_at (tcs : list (TestRunner.TestCase Dom))
    (results : gmap jsstring TestRunner.TestResult) (b : TestRunner.Browser Dom)
    (i : nat) (tc : TestRunner.TestCase Dom) :
  tcs !! i = Some tc →
  (∀ j tc', i < j → tcs !! j = Some tc' → TestRunner.tc_id tc' ≠ TestRunner.tc_id tc) →
  loopResults settle snap tcs results b !! TestRunner.tc_id tc
    = Some (recorded (outcome snap tc (foldl (pageAfter settle snap) b (take i tcs)))).
Proof.
  revert results b i.
  induction tcs as [|tc0 tcs IH]; intros results b i Hi Hlater; [done|].
  destruct i as [|i]; cbn [lookup list_lookup take foldl loopResults] in *.
  - injection Hi as ->. rewrite loopResults_other.
    + apply lookup_insert_eq.
    + intros tc' [j Hj]%list_elem_of_lookup. apply (Hlater (S j) tc'); [lia|done].
  - apply IH; [done|]. intros j tc' Hj Hl. apply (Hlater (S j) tc'); [lia|done].
Qed.

(** C9. A run of all scenarios never throws. The scenario at position [i]
    is started on the page that the scenarios before it, taken in the order
    of the list, have left, whether they fulfilled or threw; and when no
    later scenario has the same id, the results that the run stores hold
    for it the result it returned or, if it threw [e], a failed result
    whose message is ["Error: "] followed by the string conversion of [e],
    which for an [Error] object ends with the error's message. *)
Theorem runAllTests_isolates_failures
    (testCases : list (TestRunner.TestCase Dom)) (b : TestRunner.Browser Dom) :
  ∃ b',
    TestRunner.runAllTests settle snap testCases b = (TestRunner.Normal tt, b') ∧
    TestRunner.isRunning (TestRunner.app b') = false ∧
    TestRunner.selectedTest (TestRunner.app b') = None ∧
    ∀ i tc,
      testCases !! i = Some tc →
      (∀ j tc', i < j → testCases !! j = Some tc' →
                TestRunner.tc_id tc' ≠ TestRunner.tc_id tc) →
      match outcome snap tc (pageBefore settle snap testCases i b) with
      | TestRunner.Normal r =>
          TestRunner.testResults (TestRunner.app b') !! TestRunner.tc_id tc = Some r
      | TestRunner.Throw e =>
          TestRunner.testResults (TestRunner.app b') !! TestRunner.tc_id tc
            = Some (TestRunner.mkResult false
                      (str "Error: " ++ TestRunner.toString e) None) ∧
          ∀ name msg, e = TestRunner.ErrorObject name msg →
            msg `suffix_of` (str "Error: " ++ TestRunner.toString e)
      end.
Proof.
  unfold TestRunner.runAllTests.
  unfold mbind, TestRunner.Async_bind, TestRunner.abind at 1.
  cbn [TestRunner.setIsRunning TestRunner.modifyApp].
  unfold TestRunner.abind at 1. rewrite forOf_runAllStep.
  eexists. split; [reflexivity|]. cbn.
  split; [done|]. split; [done|].
  intros i tc Hi Hlater.
  pose proof (loopResults_at testCases ∅ (running true b) i tc Hi Hlater) as H.
  unfold pageBefore. unfold running in *.
  destruct (outcome snap tc _) as [r|e]; cbn [recorded] in H; [exact H|].
  split; [exact H|]. intros name msg ->.
  apply suffix_app_r, toString_carries_message.
Qed.

(** A single run, from the button of one scenario, does not throw either:
    the result or the failure is stored under the scenario's id and the
    running flag and the highlight are taken back. *)
Lemma runTest_records (tc : TestRunner.TestCase Dom) (b : TestRunner.Browser Dom) :
  ∃ b',
    TestRunner.runTest snap tc b = (TestRunner.Normal tt, b') ∧
    TestRunner.isRunning (TestRunner.app b') = false ∧
    TestRunner.selectedTest (TestRunner.app b') = None ∧
    TestRunner.testResults (TestRunner.app b') !! TestRunner.tc_id tc =
      Some match outcome snap tc (running true b) with
           | TestRunner.Normal r => r
           | TestRunner.Throw e =>
               TestRunner.mkResult false
                 (str "Error ejecutando test: " ++ TestRunner.toString e) None
           end.
Proof.
  unfold TestRunner.runTest, outcome, contextOf, highlighted, running.
  unfold mbind, TestRunner.Async_bind, TestRunner.abind, TestRunner.tryFinally,
    TestRunner.tryCatch, TestRunner.setSelectedTest, TestRunner.setIsRunning,
    TestRunner.setTestResults, TestRunner.modifyApp.
  cbn [TestRunner.dom TestRunner.app TestRunner.world TestRunner.tasks
       TestRunner.selectedTest TestRunner.testResults TestRunner.isRunning
       TestRunner.lastSubmittedData].
  destruct (TestRunner.execute tc _ _) as [[r|e] b1]; cbn [fst];
    (eexists; split; [reflexivity|]; cbn; repeat split; apply lookup_insert_eq).
Qed.

End RunAllProps.

Lemma declaredIds_NoDup : NoDup TestRunner.declaredIds.
Proof. apply (bool_decide_unpack (NoDup TestRunner.declaredIds)). by vm_compute. Qed.

Lemma threeScenarios_last (j : nat) (tc' : TestRunner.TestCase (list jsstring))
    (k : jsstring) :
  2 < j → threeScenarios !! j = Some tc' → TestRunner.tc_id tc' ≠ k.
Proof.
  intros Hj Hl. destruct j as [|[|[|j]]]; [lia | lia | lia | discriminate Hl].
Defined.

Lemma threeScenarios_after_second (j : nat) (tc' : TestRunner.TestCase (list jsstring)) :
  1 < j → threeScenarios !! j = Some tc' → TestRunner.tc_id tc' ≠ str "second".
Proof.
  intros Hj Hl. destruct j as [|[|[|j]]]; [lia | lia | | discriminate Hl].
  injection Hl as <-. intros H. discriminate H.
Defined.

Lemma runAllTests_isolates_failures_witness :
  ∃ b',
    TestRunner.runAllTests noSettle TestRunner.initialState threeScenarios emptyPage
      = (TestRunner.Normal tt, b') ∧
    TestRunner.testResults (TestRunner.app b') !! str "second"
      = Some (TestRunner.mkResult false (str "Error: TypeError: boom") None) ∧
    TestRunner.testResults (TestRunner.app b') !! str "third" = Some okResult.
Proof.
  destruct (runAllTests_isolates_failures noSettle TestRunner.initialState
              threeScenarios emptyPage) as (b' & Hrun & _ & _ & Hres).
  exists b'. split; [exact Hrun|]. split.
  - exact (proj1 (Hres 1 (logging "second"
             (TestRunner.Throw (TestRunner.ErrorObject (str "TypeError") (str "boom"))))
             eq_refl threeScenarios_after_second)).
  - exact (Hres 2 (logging "third" (TestRunner.Normal okResult)) eq_refl
             (λ j tc', threeScenarios_last j tc' (str "third"))).
Defined.

(** The three scenarios ran in the order of the list, the third one after
    the second one had thrown. *)
Example threeScenarios_order :
  TestRunner.dom
    (TestRunner.runAllTests noSettle TestRunner.initialState threeScenarios emptyPage).2
    = [str "first"; str "second"; str "third"].
Proof. reflexivity. Qed.

(** * Further properties *)

(** ** The task form: what reaches the creation callback *)

Lemma validateField_None_title (t : jsstring) :
  validateField title t = None ↔ 3 ≤ length (trim t) ∧ length (trim t) ≤ 100.
Proof.
  unfold validateField. destruct (trim t) as [|a u]; simpl truthy; simpl negb; cbv iota.
  - split; [done|]. simpl. lia.
  - destruct (Nat.ltb_spec (length (a :: u)) 3); [split; [done|lia]|].
    destruct (Nat.ltb_spec 100 (length (a :: u))); [split; [done|lia]|].
    split; [lia|done].
Qed.

Lemma validateField_None_description (d : jsstring) :
  validateField description d = None ↔ length d ≤ 500.
Proof.
  unfold validateField. destruct (Nat.ltb_spec 500 (length d)); split; (done || lia).
Qed.

Lemma validateField_None_priority (v : jsstring) :
  validateField priority v = None ↔
    v = str "low" ∨ v = str "medium" ∨ v = str "high".
Proof.
  unfold validateField, includes.
  destruct (bool_decide_reflect (v ∈ [str "low"; str "medium"; str "high"])) as [Hin|Hin];
    simpl negb; cbv iota; rewrite !elem_of_cons, elem_of_nil in Hin.
  - split; [|done]. intros _. destruct Hin as [?|[?|[?|[]]]]; auto.
  - split; [done|]. intros H. destruct Hin. tauto.
Qed.

Lemma passes_iff_validPayload (s : FormState) :
  (∀ name, ¬ fails s name) ↔ validPayload (formData s).
Proof.
  unfold validPayload, fails.
  rewrite <-validateField_None_title, <-validateField_None_description,
    <-validateField_None_priority.
  split.
  - intros H. repeat split.
    + apply dec_stable, (H title).
    + apply dec_stable, (H description).
    + apply dec_stable, (H priority).
  - intros (Ht & Hd & Hp) [] Hf; by apply Hf.
Qed.

Lemma validPayload_isValid (s : FormState) :
  (validateForm s).1 = true ↔ validPayload (formData s).
Proof. by rewrite validateForm_isValid, passes_iff_validPayload. Qed.

Lemma submitted_of_submit (p : Props) (s : FormState) :
  submitted (dispatch p Submit s).1 =
    if (validateForm s).1 then [formData s] else [].
Proof.
  destruct (validateForm s).1 eqn:Hv.
  - destruct (truthy (pd_title (initialData p))) eqn:Hseed.
    + by rewrite (dispatch_submit_valid_keep p s Hv Hseed).
    + by rewrite (dispatch_submit_valid_reset p s Hv Hseed).
  - by rewrite (dispatch_submit_invalid p s Hv).
Qed.

(** X1. A submit hands the current values to [onSubmit] exactly when the
    trimmed title has 3 to 100 code units, the description (untrimmed) has
    at most 500 and the priority is one of low, medium, high; otherwise
    [onSubmit] is not called. *)
Theorem onSubmit_iff_validPayload (p : Props) (s : FormState) :
  (validPayload (formData s) → submitted (dispatch p Submit s).1 = [formData s]) ∧
  (¬ validPayload (formData s) → submitted (dispatch p Submit s).1 = []).
Proof.
  rewrite submitted_of_submit. split.
  - intros Hv. apply validPayload_isValid in Hv. by rewrite Hv.
  - intros Hn. destruct (validateForm s).1 eqn:Hv; [|done].
    destruct Hn. by apply validPayload_isValid.
Qed.

Lemma typedValid_validPayload : validPayload (formData typedValid).
Proof.
  repeat split; [vm_compute; lia| vm_compute; lia | vm_compute; lia |].
  right. left. reflexivity.
Defined.

Lemma empty_not_validPayload : ¬ validPayload (formData (initialState createProps)).
Proof. intros ((H & _) & _). vm_compute in H. lia. Defined.

Lemma onSubmit_iff_validPayload_witness :
  submitted (dispatch createProps Submit typedValid).1 = [formData typedValid] ∧
  submitted (dispatch createProps Submit (initialState createProps)).1 = [].
Proof.
  split.
  - exact (proj1 (onSubmit_iff_validPayload createProps typedValid)
             typedValid_validPayload).
  - exact (proj2 (onSubmit_iff_validPayload createProps (initialState createProps))
             empty_not_validPayload).
Defined.

Lemma submitted_of_dispatch (p : Props) (ev : Event) (s : FormState) :
  ev ≠ Submit → submitted (dispatch p ev s).1 = [].
Proof.
  destruct ev as [|name value|name value|]; intros Hev; try done.
  unfold dispatch, runHandler, handleInputChange.
  by destruct (isTouched (touched s) name).
Qed.

(** X2. Whatever the event, a payload that reaches [onSubmit] comes from a
    submit event, is the current field values and satisfies all three
    validation rules: a change, a blur or the seeding effect never calls
    [onSubmit]. *)
Theorem onSubmit_payload_is_valid (p : Props) (ev : Event) (s : FormState)
    (d : TaskFormData) :
  d ∈ submitted (dispatch p ev s).1 →
  ev = Submit ∧ d = formData s ∧ validPayload d.
Proof.
  intros Hd. destruct ev as [|n v|n v|].
  1-3: rewrite submitted_of_dispatch in Hd by done; by apply elem_of_nil in Hd.
  rewrite submitted_of_submit in Hd. destruct (validateForm s).1 eqn:Hv.
  - apply list_elem_of_singleton in Hd as ->.
    by repeat split; apply validPayload_isValid.
  - by apply elem_of_nil in Hd.
Qed.

Lemma onSubmit_payload_is_valid_witness :
  validPayload (formData typedValid).
Proof.
  apply (onSubmit_payload_is_valid createProps Submit typedValid (formData typedValid)).
  apply list_elem_of_singleton. reflexivity.
Defined.

(** ** The task form: errors follow the values *)

Lemma getValue_setValue (d : TaskFormData) (n m : Field) (v : jsstring) :
  getValue (setValue n v d) m = if decide (n = m) then v else getValue d m.
Proof. by destruct n, m. Qed.

Lemma commit_of_submit (p : Props) (s s' : FormState) :
  Commit s' ∈ (dispatch p Submit s).1 →
  s' = flushed s ∨
  (s' = resetState ∧ (validateForm s).1 = true ∧
   truthy (pd_title (initialData p)) = false).
Proof.
  destruct (validateForm s).1 eqn:Hv.
  - destruct (truthy (pd_title (initialData p))) eqn:Hseed.
    + rewrite (dispatch_submit_valid_keep p s Hv Hseed). cbn [fst].
      rewrite !elem_of_cons, elem_of_nil.
      intros [H|[H|[H|[]]]]; try discriminate H. left. by injection H.
    + rewrite (dispatch_submit_valid_reset p s Hv Hseed). cbn [fst].
      rewrite !elem_of_cons, elem_of_nil.
      intros [H|[H|[H|[H|[]]]]]; try discriminate H.
      * left. by injection H.
      * right. split; [by injection H|done].
  - rewrite (dispatch_submit_invalid p s Hv). cbn [fst].
    rewrite !elem_of_cons, elem_of_nil.
    intros [H|[H|[]]]; try discriminate H. left. by injection H.
Qed.

Lemma stored_error_is_current (p : Props) (s : FormState) :
  interactive p s →
  ∀ name, isTouched (touched s) name = true →
    getError (errors s) name = validateField name (getValue (formData s) name).
Proof.
  induction 1 as [|s ev s' Hint IH Hev Hc]; intros name Ht.
  - by destruct name.
  - apply commit_of_dispatch in Hc.
    destruct ev as [|n v|n v|]; cbn [userEvent] in Hev; subst;
      cbn [touched errors formData] in *.
    + by destruct name.
    + rewrite getValue_setValue. destruct (decide (n = name)) as [->|Hne].
      * rewrite Ht. by rewrite getError_setError, decide_True.
      * rewrite <-(IH name Ht).
        destruct (isTouched (touched s) n); [|done].
        by rewrite getError_setError, decide_False.
    + rewrite getError_setError. rewrite isTouched_insert in Ht.
      destruct (decide (n = name)) as [->|Hne]; [done | by apply IH].
    + destruct Hc as [-> | ->]; cbn [touched errors formData] in *.
      * exact (validateForm_errors s name).
      * by destruct name.
Qed.

(** X3. In every state a user can bring the form to, the error of a
    touched field is never stale: the stored error and the error shown are
    the validation result of the value the field holds now. *)
Theorem touched_field_error_is_current (p : Props) (s : FormState) (name : Field) :
  interactive p s →
  isTouched (touched s) name = true →
  getError (errors s) name = validateField name (getValue (formData s) name) ∧
  renderedError s name = validateField name (getValue (formData s) name).
Proof.
  intros Hint Ht. pose proof (stored_error_is_current p s Hint name Ht) as He.
  split; [done|]. unfold renderedError. rewrite Ht, andb_true_r, He.
  rewrite validateField_truthy.
  destruct (validateField name (getValue (formData s) name)); by simpl.
Qed.

Lemma blurred_empty_title_interactive :
  interactive createProps
    (dispatch createProps (Blur title (str "")) (initialState createProps)).2.
Proof.
  apply (int_commit createProps (initialState createProps) (Blur title (str ""))).
  - apply int_init.
  - reflexivity.
  - apply list_elem_of_singleton. reflexivity.
Defined.

Lemma touched_field_error_is_current_witness :
  renderedError
    (dispatch createProps (Blur title (str "")) (initialState createProps)).2 title
    = Some msg_required.
Proof.
  exact (proj2 (touched_field_error_is_current createProps _ title
                  blurred_empty_title_interactive eq_refl)).
Defined.

(** X4. A touched flag is never taken back, except by the reset that
    follows a successful submit of a form without a seed title: in every
    other state that an event shows, a field that was touched is still
    touched. *)
Theorem touched_is_kept_until_reset (p : Props) (ev : Event) (s s' : FormState)
    (name : Field) :
  Commit s' ∈ (dispatch p ev s).1 →
  isTouched (touched s) name = true →
  isTouched (touched s') name = true ∨
  (ev = Submit ∧ s' = resetState ∧ validPayload (formData s) ∧
   truthy (pd_title (initialData p)) = false).
Proof.
  intros Hc Ht. destruct ev as [|n v|n v|].
  - apply commit_of_dispatch in Hc. subst. by left.
  - apply commit_of_dispatch in Hc. subst. by left.
  - apply commit_of_dispatch in Hc. subst. left. cbn [touched].
    rewrite isTouched_insert. by destruct (decide (n = name)).
  - apply commit_of_submit in Hc as [-> | (-> & Hv & Hseed)].
    + left. unfold isTouched. cbn [touched flushed]. by rewrite newTouched_lookup.
    + right. by repeat split; try apply validPayload_isValid.
Qed.

Lemma touched_is_kept_until_reset_witness :
  isTouched
    (touched (dispatch createProps (Change title (str "ab"))
                (dispatch createProps (Blur title (str "")) (initialState createProps)).2).2)
    title = true.
Proof.
  destruct (touched_is_kept_until_reset createProps (Change title (str "ab"))
              (dispatch createProps (Blur title (str "")) (initialState createProps)).2
              (dispatch createProps (Change title (str "ab"))
                 (dispatch createProps (Blur title (str "")) (initialState createProps)).2).2
              title) as [H | (H & _)].
  - apply list_elem_of_singleton. reflexivity.
  - reflexivity.
  - exact H.
  - discriminate H.
Defined.

Lemma dispatch_change (p : Props) (s : FormState) (name : Field) (v : jsstring) :
  (dispatch p (Change name v) s).2 =
    mkForm (setValue name v (formData s))
           (if isTouched (touched s) name
            then setError name (validateField name v) (errors s)
            else errors s)
           (touched s).
Proof.
  unfold dispatch, runHandler, handleInputChange.
  by destruct (isTouched (touched s) name).
Qed.

Lemma dispatch_blur (p : Props) (s : FormState) (name : Field) (v : jsstring) :
  (dispatch p (Blur name v) s).2 =
    mkForm (formData s) (setError name (validateField name v) (errors s))
           (<[name := true]> (touched s)).
Proof. reflexivity. Qed.

(** X5. A change event is local to its field. It sets the value of that
    field and of no other and never changes a touched flag. If the field is
    not touched the errors stay as they are (typing into a fresh field
    shows nothing); if it is touched, its error, and only its error,
    becomes the validation result of the new value. *)
Theorem handleInputChange_is_local (p : Props) (s : FormState) (name : Field)
    (v : jsstring) :
  getValue (formData (dispatch p (Change name v) s).2) name = v ∧
  touched (dispatch p (Change name v) s).2 = touched s ∧
  (isTouched (touched s) name = false →
     errors (dispatch p (Change name v) s).2 = errors s) ∧
  (isTouched (touched s) name = true →
     getError (errors (dispatch p (Change name v) s).2) name = validateField name v) ∧
  (∀ m, m ≠ name →
     getValue (formData (dispatch p (Change name v) s).2) m = getValue (formData s) m ∧
     getError (errors (dispatch p (Change name v) s).2) m = getError (errors s) m).
Proof.
  rewrite dispatch_change. cbn [formData errors touched].
  split; [by rewrite getValue_setValue, decide_True|]. split; [done|].
  split; [by intros ->|]. split.
  - intros ->. by rewrite getError_setError, decide_True.
  - intros m Hm. rewrite getValue_setValue, decide_False by done. split; [done|].
    destruct (isTouched (touched s) name); [|done].
    by rewrite getError_setError, decide_False.
Qed.

Lemma handleInputChange_is_local_witness :
  errors (dispatch createProps (Change title (str "ab")) (initialState createProps)).2
    = noErrors ∧
  getValue
    (formData (dispatch createProps (Change title (str "ab")) (initialState createProps)).2)
    priority = str "medium".
Proof.
  destruct (handleInputChange_is_local createProps (initialState createProps)
              title (str "ab")) as (_ & _ & Hu & _ & Hother).
  split.
  - exact (Hu eq_refl).
  - apply (Hother priority). intros H. discriminate H.
Defined.

(** X6. A blur event is local to its field. It changes no value, marks
    the field touched and stores for it the validation result of the value
    the event carries; the touched flags and the errors of the other fields
    stay as they are. *)
Theorem handleBlur_is_local (p : Props) (s : FormState) (name : Field)
    (v : jsstring) :
  formData (dispatch p (Blur name v) s).2 = formData s ∧
  isTouched (touched (dispatch p (Blur name v) s).2) name = true ∧
  getError (errors (dispatch p (Blur name v) s).2) name = validateField name v ∧
  (∀ m, m ≠ name →
     touched (dispatch p (Blur name v) s).2 !! m = touched s !! m ∧
     getError (errors (dispatch p (Blur name v) s).2) m = getError (errors s) m).
Proof.
  rewrite dispatch_blur. cbn [formData errors touched]. split; [done|].
  split; [by rewrite isTouched_insert, decide_True|].
  split; [by rewrite getError_setError, decide_True|].
  intros m Hm. split.
  - by apply lookup_insert_ne.
  - by rewrite getError_setError, decide_False.
Qed.

Lemma handleBlur_is_local_witness :
  touched (dispatch createProps (Blur title (str "")) (initialState createProps)).2
    !! priority = None.
Proof.
  destruct (handleBlur_is_local createProps (initialState createProps) title (str ""))
    as (_ & _ & _ & Hother).
  apply (Hother priority). intros H. discriminate H.
Defined.

(** ** The task form: blanks around the title *)

Lemma trimStart_app_blank (ws s : jsstring) :
  Forall (λ c, isWhiteSpace c = true) ws → trimStart (ws ++ s) = trimStart s.
Proof. induction 1 as [|c ws Hc _ IH]; [done|]. cbn. by rewrite Hc. Qed.

Lemma trimStart_blank (ws : jsstring) :
  Forall (λ c, isWhiteSpace c = true) ws → trimStart ws = [].
Proof. intros H. rewrite <-(app_nil_r ws). by rewrite trimStart_app_blank. Qed.

Lemma trimStart_nil_blank (s : jsstring) :
  trimStart s = [] → Forall (λ c, isWhiteSpace c = true) s.
Proof.
  induction s as [|c s IH]; [done|]. cbn.
  destruct (isWhiteSpace c) eqn:Hc; [|done]. intros H. constructor; auto.
Qed.

Lemma trimStart_app_nonblank (s ws : jsstring) :
  trimStart s ≠ [] → trimStart (s ++ ws) = trimStart s ++ ws.
Proof.
  induction s as [|c s IH]; [done|]. cbn.
  destruct (isWhiteSpace c); [exact IH | done].
Qed.

Lemma trimEnd_app_blank (s ws : jsstring) :
  Forall (λ c, isWhiteSpace c = true) ws → trimEnd (s ++ ws) = trimEnd s.
Proof.
  intros H. unfold trimEnd. rewrite reverse_app, trimStart_app_blank; [done|].
  by apply Forall_reverse.
Qed.

Lemma trim_padded (ws t ws' : jsstring) :
  Forall (λ c, isWhiteSpace c = true) ws →
  Forall (λ c, isWhiteSpace c = true) ws' →
  trim (ws ++ t ++ ws') = trim t.
Proof.
  intros Hws Hws'. unfold trim. rewrite trimStart_app_blank by done.
  destruct (trimStart t) as [|c u] eqn:Ht.
  - rewrite trimStart_blank; [done|].
    apply Forall_app. split; [by apply trimStart_nil_blank | done].
  - rewrite trimStart_app_nonblank by (by rewrite Ht).
    rewrite Ht. by apply trimEnd_app_blank.
Qed.

(** X7. White space around a title has no influence on its validation:
    a title with blanks before and after it gets the same verdict, and the
    same message, as the title without them. (What the form hands to
    [onSubmit] is the value as typed, blanks included.) *)
Theorem title_validation_ignores_padding (ws t ws' : jsstring) :
  Forall (λ c, isWhiteSpace c = true) ws →
  Forall (λ c, isWhiteSpace c = true) ws' →
  trim (ws ++ t ++ ws') = trim t ∧
  validateField title (ws ++ t ++ ws') = validateField title t.
Proof.
  intros Hws Hws'. split; [by apply trim_padded|].
  unfold validateField. by rewrite trim_padded.
Qed.

Lemma title_validation_ignores_padding_witness :
  validateField title (str "  Buy milk ") = validateField title (str "Buy milk").
Proof.
  apply (proj2 (title_validation_ignores_padding (str "  ") (str "Buy milk") (str " ")
                  ltac:(repeat constructor) ltac:(repeat constructor))).
Defined.

(** ** The task form: more on submits *)

(** X8. The reset after a successful submit goes to the built-in defaults,
    not to the seed: the form is back in the state it was first rendered in
    exactly when the seeded description and priority give the defaults
    anyway. A seeded description or priority is lost by the reset. *)
Theorem reset_goes_to_defaults (p : Props) (s : FormState) :
  validPayload (formData s) →
  truthy (pd_title (initialData p)) = false →
  (dispatch p Submit s).2 = initialState createProps ∧
  ((dispatch p Submit s).2 = initialState p ↔ initialFormData p = defaultFormData).
Proof.
  intros Hv%validPayload_isValid Hseed.
  rewrite (dispatch_submit_valid_reset p s Hv Hseed). cbn [snd]. split; [done|].
  unfold resetState, initialState. split.
  - intros H. apply (f_equal formData) in H. exact (eq_sym H).
  - by intros ->.
Qed.

Lemma reset_goes_to_defaults_witness :
  (dispatch seededDescription Submit typedValid).2 ≠ initialState seededDescription.
Proof.
  destruct (reset_goes_to_defaults seededDescription typedValid
              typedValid_validPayload eq_refl) as [_ Hiff].
  intros H. apply Hiff in H. discriminate H.
Defined.

(** X9. Submitting an invalid form a second time, with nothing changed in
    between, shows the same state again and again calls nothing. *)
Theorem invalid_submit_is_idempotent (p : Props) (s : FormState) :
  ¬ validPayload (formData s) →
  dispatch p Submit (dispatch p Submit s).2 = dispatch p Submit s.
Proof.
  intros Hn.
  assert ((validateForm s).1 = false) as Hv.
  { apply not_true_is_false. by rewrite validPayload_isValid. }
  rewrite (dispatch_submit_invalid p s Hv). cbn [snd].
  assert (validateForm (flushed s) = validateForm s) as Hsame by done.
  rewrite (dispatch_submit_invalid p (flushed s)) by (by rewrite Hsame).
  assert (flushed (flushed s) = flushed s) as Hff by done.
  by rewrite Hff.
Qed.

Lemma invalid_submit_is_idempotent_witness :
  dispatch createProps Submit
    (dispatch createProps Submit (initialState createProps)).2
  = dispatch createProps Submit (initialState createProps).
Proof.
  exact (invalid_submit_is_idempotent createProps (initialState createProps)
           empty_not_validPayload).
Defined.

(** ** The task collection: how the operations compose *)

Lemma mapJs_toggle_absent (target : jsstring) (ls : list loc) (w : World) :
  (∀ l, l ∈ ls → ¬ matches (heap w) target l) →
  mapJs (toggleOne target) ls w = (ls, w).
Proof.
  induction ls as [|l ls IH]; intros Habs; [done|].
  rewrite mapJs_cons.
  assert (toggleOne target l w = (l, w)) as ->.
  { pose proof (toggleOne_spec target l w) as H.
    destruct (heap w !! l) as [t|] eqn:Hl; [|done].
    destruct (decide (id t = target)) as [Hid|]; [|done].
    destruct (Habs l); [by left|]. by exists t. }
  rewrite IH; [done|]. intros l' Hl'. apply Habs. by right.
Qed.

(** X10. Toggling an id that no task has does nothing at all, in both
    components: the state is the same, the clock is not read and no object
    is allocated. *)
Theorem handleToggleComplete_absent_id (target : jsstring) (w : World) :
  (∀ st, (∀ l, l ∈ Page.tasks st → ¬ matches (heap w) target l) →
         Page.handleToggleComplete target st w = (st, w)) ∧
  (∀ st, (∀ l, l ∈ TestRunner.tasks st → ¬ matches (heap w) target l) →
         TestRunner.handleToggleComplete target st w = (st, w)).
Proof.
  split; intros [] Habs.
  - unfold Page.handleToggleComplete, mbind, Js_bind, jbind.
    by rewrite mapJs_toggle_absent.
  - unfold TestRunner.handleToggleComplete, mbind, Js_bind, jbind.
    by rewrite mapJs_toggle_absent.
Qed.

Lemma page0_has_no_task_9 (l : loc) :
  l ∈ Page.tasks page0 → ¬ matches (heap world0) (str "task-9") l.
Proof.
  intros Hl (t & Ht & Hid).
  apply elem_of_cons in Hl as [-> | Hl];
    [|apply list_elem_of_singleton in Hl as ->];
    injection Ht as <-; discriminate Hid.
Defined.

Lemma handleToggleComplete_absent_id_witness :
  Page.handleToggleComplete (str "task-9") page0 world0 = (page0, world0).
Proof.
  exact (proj1 (handleToggleComplete_absent_id (str "task-9") world0)
           page0 page0_has_no_task_9).
Defined.

(** X11. Toggling the same id twice brings every task back to what it was,
    up to [updatedAt]: at every position of the collection the task after
    the two toggles has the id, title, description, priority, [createdAt]
    and [completed] of the task that was there before. *)
Theorem handleToggleComplete_twice (target : jsstring) (st : Page.State) (w : World)
    (i : nat) (l : loc) (t : Task) :
  Page.tasks st !! i = Some l →
  heap w !! l = Some t →
  ∃ l2 t2,
    Page.tasks
      (Page.handleToggleComplete target
         (Page.handleToggleComplete target st w).1
         (Page.handleToggleComplete target st w).2).1 !! i = Some l2 ∧
    heap
      (Page.handleToggleComplete target
         (Page.handleToggleComplete target st w).1
         (Page.handleToggleComplete target st w).2).2 !! l2 = Some t2 ∧
    sameButUpdatedAt t t2.
Proof.
  intros Hi Hl. unfold Page.handleToggleComplete, mbind, Js_bind, jbind.
  pose proof (mapJs_toggle_effect target (Page.tasks st) w) as (_ & _ & H1).
  destruct (mapJs (toggleOne target) (Page.tasks st) w) as [ls1 w1].
  cbn [fst snd Page.tasks mret Js_ret jret] in *.
  pose proof (mapJs_toggle_effect target ls1 w1) as (_ & _ & H2).
  destruct (mapJs (toggleOne target) ls1 w1) as [ls2 w2].
  cbn [fst snd Page.tasks] in *.
  specialize (H1 i l t Hi Hl).
  destruct (decide (id t = target)) as [Hid|Hid].
  - destruct H1 as (l1 & k1 & Hl1 & _ & _ & Hnew1).
    specialize (H2 i l1 _ Hl1 Hnew1). cbn [toggled id] in H2.
    rewrite decide_True in H2 by done.
    destruct H2 as (l2 & k2 & Hl2 & _ & _ & Hnew2).
    exists l2, (toggled (toggled t (clock w k1)) (clock w1 k2)).
    split; [done|]. split; [done|].
    repeat split. cbn. apply negb_involutive.
  - destruct H1 as [Hl1 Hsame1].
    specialize (H2 i l t Hl1 Hsame1). rewrite decide_False in H2 by done.
    exists l, t. by destruct H2.
Qed.

Lemma handleToggleComplete_twice_witness :
  ∃ l2 t2,
    Page.tasks
      (Page.handleToggleComplete (str "task-1")
         (Page.handleToggleComplete (str "task-1") page0 world0).1
         (Page.handleToggleComplete (str "task-1") page0 world0).2).1 !! 0 = Some l2 ∧
    heap
      (Page.handleToggleComplete (str "task-1")
         (Page.handleToggleComplete (str "task-1") page0 world0).1
         (Page.handleToggleComplete (str "task-1") page0 world0).2).2 !! l2 = Some t2 ∧
    sameButUpdatedAt taskA t2.
Proof.
  exact (handleToggleComplete_twice (str "task-1") page0 world0 0 1%positive taskA
           eq_refl eq_refl).
Defined.

(** X12. A toggle changes neither the number of tasks nor their ids nor
    the order of the ids. *)
Theorem handleToggleComplete_keeps_ids (target : jsstring) (st : Page.State)
    (w : World) :
  allocated (heap w) (Page.tasks st) →
  idsOf (heap (Page.handleToggleComplete target st w).2)
        (Page.tasks (Page.handleToggleComplete target st w).1)
    = idsOf (heap w) (Page.tasks st).
Proof.
  intros Hall. unfold Page.handleToggleComplete, mbind, Js_bind, jbind.
  pose proof (mapJs_toggle_effect target (Page.tasks st) w) as (Hlen & _ & H).
  destruct (mapJs (toggleOne target) (Page.tasks st) w) as [ls1 w1].
  cbn [fst snd Page.tasks mret Js_ret jret] in *.
  apply list_eq. intros i. unfold idsOf. rewrite !list_lookup_fmap.
  destruct (Page.tasks st !! i) as [l|] eqn:Hi.
  - destruct (Hall l) as [t Ht]; [by eapply list_elem_of_lookup_2|].
    specialize (H i l t Hi Ht). cbn. rewrite Ht. cbn.
    destruct (decide (id t = target)).
    + destruct H as (l' & k & Hl' & _ & _ & Hnew).
      rewrite Hl'. cbn. by rewrite Hnew.
    + destruct H as [Hl' Hsame]. rewrite Hl'. cbn. by rewrite Hsame.
  - apply lookup_ge_None in Hi. rewrite <-Hlen in Hi.
    apply lookup_ge_None in Hi. by rewrite Hi.
Qed.

Lemma page0_allocated : allocated (heap world0) (Page.tasks page0).
Proof.
  intros l Hl.
  apply elem_of_cons in Hl as [-> | Hl];
    [|apply list_elem_of_singleton in Hl as ->]; by eexists.
Defined.

Lemma handleToggleComplete_keeps_ids_witness :
  idsOf (heap (Page.handleToggleComplete (str "task-1") page0 world0).2)
        (Page.tasks (Page.handleToggleComplete (str "task-1") page0 world0).1)
    = [Some (str "task-1"); Some (str "task-2")].
Proof.
  exact (handleToggleComplete_keeps_ids (str "task-1") page0 world0 page0_allocated).
Defined.

Lemma filter_filter_same {A} (P : A → Prop) `{∀ x, Decision (P x)} (l : list A) :
  filter P (filter P l) = filter P l.
Proof.
  apply filter_all. intros x Hx. by apply list_elem_of_filter in Hx as [? _].
Qed.

Lemma filter_filter_swap {A} (P Q : A → Prop) `{∀ x, Decision (P x)}
    `{∀ x, Decision (Q x)} (l : list A) :
  filter P (filter Q l) = filter Q (filter P l).
Proof.
  induction l as [|x l IH]; [done|].
  rewrite !(filter_cons _ x l).
  destruct (decide (P x)), (decide (Q x));
    rewrite ?filter_cons_True, ?filter_cons_False by done; by rewrite IH.
Qed.

(** X13. Deleting is idempotent: deleting the same id a second time
    changes nothing. *)
Theorem handleDeleteTask_idempotent (target : jsstring) (st : Page.State) (w : World) :
  Page.handleDeleteTask target (Page.handleDeleteTask target st w).1 w
    = Page.handleDeleteTask target st w.
Proof.
  unfold Page.handleDeleteTask. cbn [fst Page.tasks Page.isLoading Page.timers].
  by rewrite filter_filter_same.
Qed.

(** X14. Two deletes commute: whichever of two ids is deleted first, the
    same collection is left. *)
Theorem handleDeleteTask_commutes (a b : jsstring) (st : Page.State) (w : World) :
  Page.handleDeleteTask a (Page.handleDeleteTask b st w).1 w
    = Page.handleDeleteTask b (Page.handleDeleteTask a st w).1 w.
Proof.
  unfold Page.handleDeleteTask. cbn [fst Page.tasks Page.isLoading Page.timers].
  by rewrite filter_filter_swap.
Qed.

(** X15. Creating a task and then deleting its id gives back the collection
    as it was, provided no task of the collection already has the id that
    the clock gives to the new task. *)
Theorem create_then_delete (taskData : TaskFormData) (st : Page.State) (w : World) :
  allocated (heap w) (Page.tasks st) →
  (∀ l, l ∈ Page.tasks st → ¬ matches (heap w) (taskId (clock w (ticks w))) l) →
  Page.tasks
    (Page.handleDeleteTask (taskId (clock w (ticks w)))
       (Page.createTaskCallback taskData st w).1
       (Page.createTaskCallback taskData st w).2).1
    = Page.tasks st.
Proof.
  intros Hall Hnew.
  unfold Page.createTaskCallback, mbind, Js_bind, jbind. rewrite newTask_spec.
  unfold Page.handleDeleteTask.
  cbn [fst snd Page.tasks mret Js_ret jret afterCreate heap].
  rewrite filter_cons_False.
  - apply filter_all. intros l Hl. apply keepTask_matches.
    intros (t & Ht & Hid). apply (Hnew l Hl). exists t. split; [|done].
    rewrite lookup_insert_ne in Ht; [done|].
    intros <-. destruct (Hall _ Hl) as [t' Ht'].
    by eapply fresh_lookup_ne.
  - intros Hk. apply keepTask_matches in Hk. apply Hk.
    exists (createdTask taskData w). split; [apply lookup_insert_eq | done].
Qed.

Lemma page0_has_no_task_1000 (l : loc) :
  l ∈ Page.tasks page0 →
  ¬ matches (heap world0) (taskId (clock world0 (ticks world0))) l.
Proof.
  intros Hl (t & Ht & Hid).
  apply elem_of_cons in Hl as [-> | Hl];
    [|apply list_elem_of_singleton in Hl as ->];
    injection Ht as <-; vm_compute in Hid; discriminate Hid.
Defined.

Lemma create_then_delete_witness :
  Page.tasks
    (Page.handleDeleteTask (str "task-1000")
       (Page.createTaskCallback payload1 page0 world0).1
       (Page.createTaskCallback payload1 page0 world0).2).1
    = [1%positive; 2%positive].
Proof.
  exact (create_then_delete payload1 page0 world0 page0_allocated
           page0_has_no_task_1000).
Defined.

(** ** The page: invariants of the task collection *)

Lemma stamped_extends (w w' : World) (l : loc) (c : nat) :
  extends w w' → stamped w l c → stamped w' l c.
Proof.
  intros (Hc & Ht & Hh) (t & j & Hl & Hid & Hcr & Hup & Hle & Hlt).
  exists t, j. rewrite Hc. repeat split; auto. lia.
Qed.

Lemma newer_extends (w w' : World) (l1 l2 : loc) :
  extends w w' → newer w l1 l2 → newer w' l1 l2.
Proof.
  intros He (c1 & c2 & H1 & H2 & Hlt).
  exists c1, c2. eauto using stamped_extends.
Qed.

Lemma stamped_allocated (w : World) (ls : list loc) :
  Forall (λ l, ∃ k, stamped w l k) ls → allocated (heap w) ls.
Proof.
  rewrite Forall_forall. intros H l Hl.
  destruct (H l Hl) as (k & t & j & Ht & _). by exists t.
Qed.

Lemma afterCreate_extends (taskData : TaskFormData) (w : World) :
  extends w (afterCreate taskData w).
Proof.
  repeat split; cbn; [lia|].
  intros l t Hl. rewrite lookup_insert_ne; [done|]. by eapply fresh_lookup_ne.
Qed.

Lemma StronglySorted_sublist {A} (R : relation A) (k l : list A) :
  k `sublist_of` l → StronglySorted R l → StronglySorted R k.
Proof.
  induction 1 as [|x k l Hkl IH|x k l Hkl IH]; intros Hs; [done|..].
  - apply StronglySorted_inv in Hs as [Hs Hx]. constructor; [by apply IH|].
    rewrite Forall_forall in *. intros y Hy. apply Hx.
    by eapply elem_of_sublist.
  - apply StronglySorted_inv in Hs as [Hs _]. by apply IH.
Qed.

Lemma StronglySorted_Forall2 {A} (R R' : relation A) (Q : A → A → Prop)
    (l l' : list A) :
  Forall2 Q l l' →
  (∀ a a' b b', Q a a' → Q b b' → R a b → R' a' b') →
  StronglySorted R l → StronglySorted R' l'.
Proof.
  intros HQ Himp. induction HQ as [|a a' l l' Ha HQ IH]; intros Hs; [constructor|].
  apply StronglySorted_inv in Hs as [Hs Hall]. constructor; [by apply IH|].
  clear IH Hs. induction HQ as [|b b' l l' Hb HQ IH]; [constructor|].
  apply Forall_cons in Hall as [Hab Hall]. constructor; eauto.
Qed.

Lemma StronglySorted_mono {A} (R R' : relation A) (l : list A) :
  (∀ a b, R a b → R' a b) → StronglySorted R l → StronglySorted R' l.
Proof.
  intros Himp. induction 1 as [|a l Hs IH Hall]; constructor; [done|].
  eapply Forall_impl; [exact Hall|]. auto.
Qed.

Lemma StronglySorted_lookup {A} (R : relation A) (l : list A) (i j : nat) (x y : A) :
  StronglySorted R l → i < j → l !! i = Some x → l !! j = Some y → R x y.
Proof.
  intros Hs. revert i j. induction Hs as [|a l Hs IH Hall]; intros i j Hij Hi Hj; [done|].
  destruct j as [|j]; [lia|]. destruct i as [|i]; cbn in *.
  - injection Hi as <-. rewrite Forall_forall in Hall.
    apply Hall. by eapply list_elem_of_lookup_2.
  - apply (IH i j); [lia|done..].
Qed.

Lemma mapJs_toggle_Forall2 (target : jsstring) (ls : list loc) (w : World) :
  allocated (heap w) ls →
  Forall2 (toggledRef target w (mapJs (toggleOne target) ls w).2)
          ls (mapJs (toggleOne target) ls w).1.
Proof.
  intros Hall.
  pose proof (mapJs_toggle_effect target ls w) as (Hlen & _ & H).
  apply Forall2_same_length_lookup_2; [done|].
  intros i l l' Hi Hi'. destruct (Hall l) as [t Ht]; [by eapply list_elem_of_lookup_2|].
  specialize (H i l t Hi Ht). exists t. split; [done|].
  destruct (decide (id t = target)).
  - destruct H as (l2 & k & Hl2 & _ & Hk & Hnew). exists k. split; [done|]. congruence.
  - destruct H as [Hl2 Hsame]. split; [congruence | done].
Qed.

Lemma toggleOne_ref (target : jsstring) (l : loc) (w : World) :
  is_Some (heap w !! l) →
  ((toggleOne target l w).1 = l ∨ (toggleOne target l w).1 ∉ dom (heap w)) ∧
  (toggleOne target l w).1 ∈ dom (heap (toggleOne target l w).2).
Proof.
  intros [t Ht]. pose proof (toggleOne_spec target l w) as H. rewrite Ht in H.
  destruct (decide (id t = target)).
  - cbv zeta in H. rewrite H. cbn. split; [right; apply is_fresh|].
    apply elem_of_dom. rewrite lookup_insert_eq. by eexists.
  - rewrite H. cbn. split; [by left|]. apply elem_of_dom. by eexists.
Qed.

Lemma extends_in_dom (w w' : World) (l : loc) :
  extends w w' → l ∈ dom (heap w) → l ∈ dom (heap w').
Proof.
  intros (_ & _ & Hh) [t Ht]%elem_of_dom. apply elem_of_dom. exists t. by apply Hh.
Qed.

Lemma mapJs_toggle_NoDup (target : jsstring) (ls : list loc) (w : World) :
  allocated (heap w) ls → NoDup ls →
  NoDup (mapJs (toggleOne target) ls w).1 ∧
  ∀ l', l' ∈ (mapJs (toggleOne target) ls w).1 →
        (l' ∈ ls ∨ l' ∉ dom (heap w)) ∧
        l' ∈ dom (heap (mapJs (toggleOne target) ls w).2).
Proof.
  revert w. induction ls as [|l r IH]; intros w Hall Hnd.
  - split; [constructor|]. intros l' Hl'. by apply elem_of_nil in Hl'.
  - rewrite mapJs_cons.
    pose proof (toggleOne_ref target l w (Hall l ltac:(by left))) as [Hl1 Hdom1].
    pose proof (toggleOne_extends target l w) as E1.
    destruct (toggleOne target l w) as [l1 w1]. cbn [fst snd] in *.
    apply NoDup_cons in Hnd as [Hnotin Hnd].
    assert (allocated (heap w1) r) as Hall1.
    { intros x Hx. destruct (Hall x) as [t Ht]; [by right|].
      exists t. by apply E1. }
    specialize (IH w1 Hall1 Hnd).
    pose proof (mapJs_toggle_extends target r w1) as E2.
    destruct (mapJs (toggleOne target) r w1) as [r' w2]. cbn [fst snd] in *.
    destruct IH as [Hnd' Hin']. split.
    + apply NoDup_cons. split; [|done]. intros Hl1r.
      destruct (Hin' l1 Hl1r) as [[Hr | Hnew] _]; [|done].
      destruct Hl1 as [-> | Hfresh]; [done|].
      apply Hfresh, elem_of_dom, Hall. by right.
    + intros l' [-> | Hl']%elem_of_cons.
      * split; [|by eapply extends_in_dom].
        destruct Hl1 as [-> | ?]; [left; by left | by right].
      * destruct (Hin' l' Hl') as [[Hr | Hnew] Hd]; (split; [|done]).
        -- left. by right.
        -- right. by eapply extends_dom.
Qed.

Lemma toggledRef_stamped (target : jsstring) (w w' : World) (l l' : loc) (c : nat) :
  extends w w' → toggledRef target w w' l l' → stamped w l c → stamped w' l' c.
Proof.
  intros He (t & Ht & H) Hs. destruct (decide (id t = target)).
  - destruct H as (k & [Hk1 Hk2] & Hnew).
    destruct Hs as (t0 & j & Ht0 & Hid & Hcr & Hup & Hle & Hlt).
    assert (t0 = t) as -> by congruence.
    destruct He as (Hc & _ & _).
    exists (toggled t (clock w k)), k. rewrite Hc. repeat split; auto. lia.
  - destruct H as [-> _]. by eapply stamped_extends.
Qed.

Lemma pageStep_invariant (w0 : World) (ev : PageEvent) (c : Page.State * World) :
  pageInvariant w0 c → pageInvariant w0 (pageStep ev c).
Proof.
  destruct c as [st w]. intros (Hclk & Hnd & Hst & Hsort). cbn [fst snd] in *.
  pose proof (stamped_allocated w _ Hst) as Hall.
  destruct ev as [d| |target|target]; cbn [pageStep fst snd].
  - done.
  - unfold Page.fireTimer. destruct (Page.timers st) as [|d rest]; [done|].
    unfold Page.createTaskCallback, mbind, Js_bind, jbind. rewrite newTask_spec.
    cbn [fst snd Page.tasks mret Js_ret jret].
    pose proof (afterCreate_extends d w) as He.
    assert (stamped (afterCreate d w) (fresh (dom (heap w))) (ticks w)) as Hnew.
    { exists (createdTask d w), (S (S (ticks w))). cbn.
      rewrite lookup_insert_eq. repeat split; lia. }
    repeat split.
    + done.
    + apply NoDup_cons. split; [|done]. intros Hin.
      apply (is_fresh (dom (heap w))), elem_of_dom. by apply Hall.
    + constructor; [by eexists|].
      eapply Forall_impl; [exact Hst|]. intros l [k Hk].
      exists k. by eapply stamped_extends.
    + constructor.
      * eapply StronglySorted_mono; [|exact Hsort].
        intros a b. by apply newer_extends.
      * rewrite Forall_forall in *. intros l Hl. destruct (Hst l Hl) as [k Hk].
        exists (ticks w), k. split; [done|]. split; [by eapply stamped_extends|].
        destruct Hk as (t & j & _ & _ & _ & _ & Hle & Hlt). lia.
  - unfold Page.handleToggleComplete, mbind, Js_bind, jbind.
    pose proof (mapJs_toggle_Forall2 target (Page.tasks st) w Hall) as HF.
    pose proof (mapJs_toggle_NoDup target (Page.tasks st) w Hall Hnd) as [Hnd' _].
    pose proof (mapJs_toggle_extends target (Page.tasks st) w) as He.
    destruct (mapJs (toggleOne target) (Page.tasks st) w) as [ls' w'].
    cbn [fst snd Page.tasks mret Js_ret jret] in *.
    unfold pageInvariant, mret, Js_ret, jret. cbn [fst snd Page.tasks]. repeat split.
    + destruct He as (Hc & _). congruence.
    + done.
    + clear Hsort Hnd Hnd' Hall. induction HF as [|l l' ls ls' Hl HF IH]; [constructor|].
      apply Forall_cons in Hst as [[k Hk] Hst]. constructor; [|by apply IH].
      exists k. by eapply toggledRef_stamped.
    + eapply (StronglySorted_Forall2 (newer w)); [exact HF| |exact Hsort].
      intros a a' b b' Ha Hb (c1 & c2 & H1 & H2 & Hlt).
      exists c1, c2. eauto using toggledRef_stamped.
  - unfold Page.handleDeleteTask. cbn [fst snd Page.tasks].
    pose proof (filter_sublist_of (λ l, keepTask (heap w) target l) (Page.tasks st))
      as Hsub.
    repeat split.
    + done.
    + by eapply sublist_NoDup.
    + rewrite Forall_forall in *. intros l Hl. apply Hst. by eapply elem_of_sublist.
    + by eapply StronglySorted_sublist.
Qed.

Lemma pageReachable_invariant (w0 : World) (c : Page.State * World) :
  pageReachable w0 c → pageInvariant w0 c.
Proof.
  induction 1 as [|ev c Hr IH].
  - repeat split; constructor.
  - by apply pageStep_invariant.
Qed.

Lemma worldTicking_monotone (i j : nat) :
  i ≤ j → (clock worldTicking i ≤ clock worldTicking j)%Z.
Proof. cbn. lia. Defined.

Lemma worldTicking_increasing (i j : nat) :
  i < j → (clock worldTicking i < clock worldTicking j)%Z.
Proof. cbn. lia. Defined.

Lemma pageAfterCreateAndToggle_reachable :
  pageReachable worldTicking pageAfterCreateAndToggle.
Proof. repeat apply page_step. apply page_init. Defined.

Lemma pageAfterTwoCreations_reachable :
  pageReachable worldTicking pageAfterTwoCreations.
Proof. repeat apply page_step. apply page_init. Defined.

(** X16. Whatever happens to the page, as long as the clock never runs
    backwards every task of the collection has [createdAt] not later than
    [updatedAt]. *)
Theorem createdAt_le_updatedAt (w0 : World) (c : Page.State * World) (l : loc) :
  pageReachable w0 c →
  (∀ i j, i ≤ j → (clock w0 i ≤ clock w0 j)%Z) →
  l ∈ Page.tasks c.1 →
  ∃ t, heap c.2 !! l = Some t ∧ (createdAt t ≤ updatedAt t)%Z.
Proof.
  intros (Hclk & _ & Hst & _)%pageReachable_invariant Hmono Hl.
  rewrite Forall_forall in Hst.
  destruct (Hst l Hl) as (k & t & j & Ht & _ & Hcr & Hup & Hle & _).
  exists t. split; [done|]. rewrite Hcr, Hup, Hclk. by apply Hmono.
Qed.

Lemma createdAt_le_updatedAt_witness :
  ∃ t, heap pageAfterCreateAndToggle.2 !! 2%positive = Some t ∧
       (createdAt t ≤ updatedAt t)%Z.
Proof.
  apply (createdAt_le_updatedAt worldTicking pageAfterCreateAndToggle 2%positive
           pageAfterCreateAndToggle_reachable worldTicking_monotone).
  apply list_elem_of_singleton. reflexivity.
Defined.

(** X17. Whatever happens to the page, as long as the clock never runs
    backwards the collection is ordered newest first: a task that stands
    before another one was not created earlier. *)
Theorem collection_is_newest_first (w0 : World) (c : Page.State * World)
    (i j : nat) (li lj : loc) (ti tj : Task) :
  pageReachable w0 c →
  (∀ i j, i ≤ j → (clock w0 i ≤ clock w0 j)%Z) →
  i < j →
  Page.tasks c.1 !! i = Some li → Page.tasks c.1 !! j = Some lj →
  heap c.2 !! li = Some ti → heap c.2 !! lj = Some tj →
  (createdAt tj ≤ createdAt ti)%Z.
Proof.
  intros (Hclk & _ & _ & Hsort)%pageReachable_invariant Hmono Hij Hi Hj Hti Htj.
  destruct (StronglySorted_lookup _ _ i j li lj Hsort Hij Hi Hj)
    as (c1 & c2 & (t1 & j1 & Ht1 & _ & Hcr1 & _) & (t2 & j2 & Ht2 & _ & Hcr2 & _) & Hlt).
  assert (t1 = ti) as -> by congruence. assert (t2 = tj) as -> by congruence.
  rewrite Hcr1, Hcr2, Hclk. apply Hmono. lia.
Qed.

Lemma collection_is_newest_first_witness :
  (createdAt (createdTask payload1 worldTicking)
   ≤ createdAt (createdTask payload2 (afterCreate payload1 worldTicking)))%Z.
Proof.
  apply (collection_is_newest_first worldTicking pageAfterTwoCreations
           0 1 2%positive 1%positive _ _
           pageAfterTwoCreations_reachable worldTicking_monotone);
    [lia | reflexivity..].
Defined.

(** X18. Whatever happens to the page, if every reading of the clock is
    later than the readings before it, no two tasks of the collection have
    the same id. *)
Theorem ids_unique_when_clock_advances (w0 : World) (c : Page.State * World)
    (i j : nat) (li lj : loc) (ti tj : Task) :
  pageReachable w0 c →
  (∀ i j, i < j → (clock w0 i < clock w0 j)%Z) →
  i ≠ j →
  Page.tasks c.1 !! i = Some li → Page.tasks c.1 !! j = Some lj →
  heap c.2 !! li = Some ti → heap c.2 !! lj = Some tj →
  id ti ≠ id tj.
Proof.
  intros (Hclk & _ & _ & Hsort)%pageReachable_invariant Hinc Hij Hi Hj Hti Htj Heq.
  assert (∀ i j li lj ti tj, i < j →
            Page.tasks c.1 !! i = Some li → Page.tasks c.1 !! j = Some lj →
            heap c.2 !! li = Some ti → heap c.2 !! lj = Some tj →
            id ti ≠ id tj) as Hlt.
  { clear i j li lj ti tj Hij Hi Hj Hti Htj Heq.
    intros i j li lj ti tj Hij Hi Hj Hti Htj Heq.
    destruct (StronglySorted_lookup _ _ i j li lj Hsort Hij Hi Hj)
      as (c1 & c2 & (t1 & j1 & Ht1 & Hid1 & _) & (t2 & j2 & Ht2 & Hid2 & _) & Hlt).
    assert (t1 = ti) as -> by congruence. assert (t2 = tj) as -> by congruence.
    rewrite Hid1, Hid2, Hclk in Heq. apply taskId_eq_iff in Heq.
    specialize (Hinc c2 c1 Hlt). lia. }
  destruct (decide (i < j)) as [Hlt'|Hge].
  - by apply (Hlt i j li lj ti tj).
  - apply (Hlt j i lj li tj ti); [lia|done..].
Qed.

Lemma ids_unique_when_clock_advances_witness :
  id (createdTask payload2 (afterCreate payload1 worldTicking))
  ≠ id (createdTask payload1 worldTicking).
Proof.
  apply (ids_unique_when_clock_advances worldTicking pageAfterTwoCreations
           0 1 2%positive 1%positive _ _
           pageAfterTwoCreations_reachable worldTicking_increasing);
    [lia | reflexivity..].
Defined.

(** X19. Whatever happens to the page, the collection never holds the same
    task object twice and every reference in it denotes an object. *)
Theorem collection_has_no_aliases (w0 : World) (c : Page.State * World) :
  pageReachable w0 c →
  NoDup (Page.tasks c.1) ∧ allocated (heap c.2) (Page.tasks c.1).
Proof.
  intros (_ & Hnd & Hst & _)%pageReachable_invariant.
  split; [done | by apply stamped_allocated].
Qed.

Lemma collection_has_no_aliases_witness :
  NoDup (Page.tasks pageAfterTwoCreations.1).
Proof.
  exact (proj1 (collection_has_no_aliases worldTicking pageAfterTwoCreations
                  pageAfterTwoCreations_reachable)).
Defined.

(** ** The page: statistics and timers *)

Lemma filter_bool_cons {A} (f : A → bool) (x : A) (l : list A) :
  filter (λ y, f y) (x :: l) = if f x then x :: filter (λ y, f y) l
                               else filter (λ y, f y) l.
Proof. rewrite filter_cons. by destruct (f x). Qed.

Lemma countTasks_cons (p : Task → bool) (h : gmap loc Task) (l : loc) (ls : list loc) :
  Page.countTasks p h (l :: ls) =
    (if Page.holdsOf p h l then 1 else 0) + Page.countTasks p h ls.
Proof.
  unfold Page.countTasks. rewrite (filter_bool_cons (Page.holdsOf p h)).
  by destruct (Page.holdsOf p h l).
Qed.

Lemma countTasks_split (p : Task → bool) (h : gmap loc Task) (ls : list loc) :
  allocated h ls →
  Page.countTasks p h ls + Page.countTasks (λ t, negb (p t)) h ls = length ls.
Proof.
  induction ls as [|l ls IH]; intros Hall; [done|].
  destruct (Hall l) as [t Ht]; [by left|].
  assert (allocated h ls) as Hall' by (intros x Hx; apply Hall; by right).
  specialize (IH Hall'). rewrite !countTasks_cons. unfold Page.holdsOf.
  rewrite Ht. destruct (p t); cbn; lia.
Qed.

Lemma countTasks_le (p q : Task → bool) (h : gmap loc Task) (ls : list loc) :
  (∀ t, p t = true → q t = true) →
  Page.countTasks p h ls ≤ Page.countTasks q h ls.
Proof.
  intros Hpq. induction ls as [|l ls IH]; [done|].
  rewrite !countTasks_cons. unfold Page.holdsOf.
  destruct (h !! l) as [t|]; [|lia].
  destruct (p t) eqn:Hp; [rewrite (Hpq t Hp); lia|].
  destruct (q t); lia.
Qed.

(** X20. In every state of the page the statistics add up: the completed
    and the pending tasks together are all tasks, and the count of open
    high-priority tasks is at most the count of pending tasks. *)
Theorem statistics_add_up (w0 : World) (c : Page.State * World) :
  pageReachable w0 c →
  Page.completedTasks (heap c.2) c.1 + Page.pendingTasks (heap c.2) c.1
    = Page.totalTasks c.1 ∧
  Page.highPriorityTasks (heap c.2) c.1 ≤ Page.pendingTasks (heap c.2) c.1.
Proof.
  intros (_ & _ & Hst%stamped_allocated & _)%pageReachable_invariant. split.
  - by apply countTasks_split.
  - apply countTasks_le. by intros t [_ ?]%andb_true_iff.
Qed.

Lemma statistics_add_up_witness :
  Page.completedTasks (heap pageAfterCreateAndToggle.2) pageAfterCreateAndToggle.1
  + Page.pendingTasks (heap pageAfterCreateAndToggle.2) pageAfterCreateAndToggle.1
  = 1.
Proof.
  exact (proj1 (statistics_add_up worldTicking pageAfterCreateAndToggle
                  pageAfterCreateAndToggle_reachable)).
Defined.

Lemma pageStep_extends (ev : PageEvent) (c : Page.State * World) :
  extends c.2 (pageStep ev c).2.
Proof.
  destruct c as [st w]. destruct ev as [d| |target|target]; cbn [pageStep fst snd].
  - apply extends_refl.
  - unfold Page.fireTimer. destruct (Page.timers st) as [|d rest];
      [apply extends_refl|].
    unfold Page.createTaskCallback, mbind, Js_bind, jbind. rewrite newTask_spec.
    apply afterCreate_extends.
  - unfold Page.handleToggleComplete, mbind, Js_bind, jbind.
    pose proof (mapJs_toggle_extends target (Page.tasks st) w) as He.
    by destruct (mapJs (toggleOne target) (Page.tasks st) w).
  - apply extends_refl.
Qed.

Lemma fireTimers_extends (n : nat) (c : Page.State * World) :
  extends c.2 (fireTimers n c).2.
Proof.
  revert c. induction n as [|n IH]; intros c; [apply extends_refl|].
  cbn [fireTimers]. eapply extends_trans; [apply pageStep_extends | apply IH].
Qed.

(** X21. A creation cannot be cancelled and none is lost: when as many
    timers have fired as creations were scheduled, no timer is pending,
    the loading flag is down, and the collection has grown at its front by
    one task for each scheduled payload, the payload scheduled last first;
    each of these tasks is not completed and carries its payload. *)
Theorem every_scheduled_creation_happens (st : Page.State) (w : World) :
  Page.timers (fireTimers (length (Page.timers st)) (st, w)).1 = [] ∧
  (Page.timers st ≠ [] →
     Page.isLoading (fireTimers (length (Page.timers st)) (st, w)).1 = false) ∧
  ∃ news,
    Page.tasks (fireTimers (length (Page.timers st)) (st, w)).1
      = news ++ Page.tasks st ∧
    Forall2
      (λ l d, ∃ t,
         heap (fireTimers (length (Page.timers st)) (st, w)).2 !! l = Some t ∧
         task_title t = fd_title d ∧
         task_description t = Some (fd_description d) ∧
         task_priority t = fd_priority d ∧
         completed t = false)
      news (reverse (Page.timers st)).
Proof.
  destruct st as [ts ld tm]. cbn [Page.timers Page.tasks Page.isLoading].
  revert ts ld w. induction tm as [|d rest IH]; intros ts ld w.
  - cbn. split; [done|]. split; [done|]. exists []. split; [done|]. constructor.
  - cbn [length fireTimers pageStep fst snd Page.fireTimer Page.timers
         Page.tasks Page.isLoading].
    unfold Page.createTaskCallback, mbind, Js_bind, jbind. rewrite newTask_spec.
    unfold mret, Js_ret, jret. cbn [Page.timers Page.tasks Page.isLoading].
    specialize (IH (fresh (dom (heap w)) :: ts) false (afterCreate d w)).
    pose proof (fireTimers_extends (length rest)
      (Page.mkState (fresh (dom (heap w)) :: ts) false rest, afterCreate d w))
      as (_ & _ & Hframe).
    destruct IH as (Htm & Hld & news & Hts & Hnews). split; [done|]. split.
    + intros _. destruct rest as [|d' rest']; [done|]. by apply Hld.
    + exists (news ++ [fresh (dom (heap w))]). split.
      * by rewrite Hts, <-(assoc_L (++)).
      * rewrite reverse_cons. apply Forall2_app; [done|].
        constructor; [|constructor].
        exists (createdTask d w). split; [|done].
        apply Hframe. cbn. apply lookup_insert_eq.
Qed.

Lemma every_scheduled_creation_happens_witness :
  Page.timers
    (fireTimers 2
       (Page.handleCreateTask payload2
          (Page.handleCreateTask payload1 Page.initialState), worldTicking)).1 = [].
Proof.
  exact (proj1 (every_scheduled_creation_happens
                  (Page.handleCreateTask payload2
                     (Page.handleCreateTask payload1 Page.initialState))
                  worldTicking)).
Defined.

(** ** The test runner: single runs, counts and icons *)

Section RunnerPanelProps.

Context {Dom : Type}.
Variable settle : nat → TestRunner.Browser Dom → TestRunner.Browser Dom.
Variable snap : TestRunner.State.

(** X22. A single run never throws. Whether the scenario returns or
    throws, exactly one result is stored, under the id of the scenario; the
    results of the other scenarios, the tasks, the document and the world
    are as the scenario left them, and the running flag and the highlight
    are taken back. *)
Theorem runTest_stores_one_result (tc : TestRunner.TestCase Dom)
    (b : TestRunner.Browser Dom) :
  ∃ b',
    TestRunner.runTest snap tc b = (TestRunner.Normal tt, b') ∧
    TestRunner.isRunning (TestRunner.app b') = false ∧
    TestRunner.selectedTest (TestRunner.app b') = None ∧
    TestRunner.testResults (TestRunner.app b') !! TestRunner.tc_id tc
      = Some (recordedSingle (outcome snap tc (running true b))) ∧
    (∀ k, k ≠ TestRunner.tc_id tc →
       TestRunner.testResults (TestRunner.app b') !! k =
       TestRunner.testResults
         (TestRunner.app
            (TestRunner.execute tc (contextOf snap)
               (highlighted (Some (TestRunner.tc_id tc)) (running true b))).2) !! k) ∧
    TestRunner.tasks (TestRunner.app b') =
      TestRunner.tasks
        (TestRunner.app
           (TestRunner.execute tc (contextOf snap)
              (highlighted (Some (TestRunner.tc_id tc)) (running true b))).2).
Proof.
  unfold TestRunner.runTest, outcome, contextOf, highlighted, running.
  unfold mbind, TestRunner.Async_bind, TestRunner.abind, TestRunner.tryFinally,
    TestRunner.tryCatch, TestRunner.setSelectedTest, TestRunner.setIsRunning,
    TestRunner.setTestResults, TestRunner.modifyApp.
  cbn [TestRunner.dom TestRunner.app TestRunner.world TestRunner.tasks
       TestRunner.selectedTest TestRunner.testResults TestRunner.isRunning
       TestRunner.lastSubmittedData].
  destruct (TestRunner.execute tc _ _) as [[r|e] b1]; cbn [fst snd];
    (eexists; split; [reflexivity|];
     cbn [TestRunner.dom TestRunner.app TestRunner.world TestRunner.tasks
          TestRunner.selectedTest TestRunner.testResults TestRunner.isRunning
          TestRunner.lastSubmittedData recordedSingle];
     repeat split; [apply lookup_insert_eq | intros k Hk; by apply lookup_insert_ne]).
Qed.

Lemma runAllTests_run (testCases : list (TestRunner.TestCase Dom))
    (b : TestRunner.Browser Dom) :
  TestRunner.runAllTests settle snap testCases b =
    (TestRunner.Normal tt,
     TestRunner.mkBrowser
       (TestRunner.dom (foldl (pageAfter settle snap) (running true b) testCases))
       (TestRunner.mkState
          (TestRunner.tasks
             (TestRunner.app (foldl (pageAfter settle snap) (running true b) testCases)))
          None
          (loopResults settle snap testCases ∅ (running true b))
          false
          (TestRunner.lastSubmittedData
             (TestRunner.app (foldl (pageAfter settle snap) (running true b) testCases))))
       (TestRunner.world (foldl (pageAfter settle snap) (running true b) testCases))).
Proof.
  unfold TestRunner.runAllTests.
  unfold mbind, TestRunner.Async_bind, TestRunner.abind at 1.
  cbn [TestRunner.setIsRunning TestRunner.modifyApp].
  unfold TestRunner.abind at 1.
  change (TestRunner.mkBrowser _ _ _) with (running true b) at 1.
  by rewrite forOf_runAllStep.
Qed.

Lemma loopResults_is_Some (tcs : list (TestRunner.TestCase Dom))
    (results : gmap jsstring TestRunner.TestResult) (b : TestRunner.Browser Dom)
    (k : jsstring) :
  is_Some (loopResults settle snap tcs results b !! k) ↔
    k ∈ (TestRunner.tc_id <$> tcs) ∨ is_Some (results !! k).
Proof.
  revert results b. induction tcs as [|tc tcs IH]; intros results b.
  - cbn. rewrite elem_of_nil. tauto.
  - cbn [loopResults]. rewrite IH, fmap_cons, elem_of_cons.
    destruct (decide (TestRunner.tc_id tc = k)) as [<-|Hne].
    + rewrite lookup_insert_eq. split; [auto|]. intros _. right. by eexists.
    + rewrite lookup_insert_ne by done. split; [tauto|].
      intros [[?|?]|?]; [congruence|tauto..].
Qed.

Lemma loopResults_size (tcs : list (TestRunner.TestCase Dom))
    (results : gmap jsstring TestRunner.TestResult) (b : TestRunner.Browser Dom) :
  NoDup (TestRunner.tc_id <$> tcs) →
  (∀ k, k ∈ (TestRunner.tc_id <$> tcs) → results !! k = None) →
  size (loopResults settle snap tcs results b) = length tcs + size results.
Proof.
  revert results b. induction tcs as [|tc tcs IH]; intros results b Hnd Hnew; [done|].
  rewrite fmap_cons in Hnd. apply NoDup_cons in Hnd as [Hnotin Hnd].
  cbn [loopResults length]. rewrite IH; [|done|].
  - rewrite map_size_insert_None; [lia|]. apply Hnew. rewrite fmap_cons. by left.
  - intros k Hk. rewrite lookup_insert_ne.
    + apply Hnew. rewrite fmap_cons. by right.
    + by intros <-.
Qed.

(** X23. The results that a run of all scenarios stores are results of
    this run only: every scenario of the list has a result, no other id
    has one (results that were there before are dropped), and when the
    ids are distinct the total count shown is the number of scenarios. *)
Theorem runAllTests_replaces_results (testCases : list (TestRunner.TestCase Dom))
    (b : TestRunner.Browser Dom) :
  (∀ k, is_Some
          (TestRunner.testResults
             (TestRunner.app (TestRunner.runAllTests settle snap testCases b).2) !! k)
        ↔ k ∈ (TestRunner.tc_id <$> testCases)) ∧
  (NoDup (TestRunner.tc_id <$> testCases) →
   TestRunner.totalTests
     (TestRunner.app (TestRunner.runAllTests settle snap testCases b).2)
   = length testCases).
Proof.
  rewrite runAllTests_run.
  cbn [snd TestRunner.app TestRunner.testResults TestRunner.totalTests]. split.
  - intros k. rewrite loopResults_is_Some, lookup_empty.
    split; [intros [?|[? ?]]; done | auto].
  - intros Hnd. unfold TestRunner.totalTests.
    cbn [TestRunner.testResults]. rewrite length_map_to_list.
    rewrite loopResults_size; [rewrite map_size_empty; lia | done |].
    intros k _. apply lookup_empty.
Qed.

(** X24. After a run of all scenarios every scenario of the list shows a
    check mark or a cross, never the empty circle; after [clearResults]
    every id shows the empty circle again. *)
Theorem icons_after_run_and_clear (testCases : list (TestRunner.TestCase Dom))
    (b : TestRunner.Browser Dom) (tc : TestRunner.TestCase Dom) :
  tc ∈ testCases →
  (TestRunner.getResultIcon
     (TestRunner.app (TestRunner.runAllTests settle snap testCases b).2)
     (TestRunner.tc_id tc) = [0x2705%N] ∨
   TestRunner.getResultIcon
     (TestRunner.app (TestRunner.runAllTests settle snap testCases b).2)
     (TestRunner.tc_id tc) = [0x274C%N]) ∧
  TestRunner.getResultIcon
    (TestRunner.clearResults
       (TestRunner.app (TestRunner.runAllTests settle snap testCases b).2))
    (TestRunner.tc_id tc) = [0x26AA%N].
Proof.
  intros Hin. split; [|done].
  rewrite runAllTests_run. unfold TestRunner.getResultIcon.
  cbn [snd TestRunner.app TestRunner.testResults].
  assert (is_Some (loopResults settle snap testCases ∅ (running true b)
                     !! TestRunner.tc_id tc)) as [r ->].
  { apply loopResults_is_Some. left. by apply list_elem_of_fmap_2. }
  destruct (TestRunner.passed r); auto.
Qed.

End RunnerPanelProps.

Lemma length_filter_all {A} (P : A → Prop) `{∀ x, Decision (P x)} (l : list A) :
  length (filter P l) = length l ↔ Forall P l.
Proof.
  induction l as [|x l IH]; [by split; [constructor|]|].
  rewrite filter_cons. destruct (decide (P x)) as [Hx|Hx]; cbn [length].
  - rewrite Forall_cons. split.
    + intros [= Hl]. split; [done | by apply IH].
    + intros [_ Hl]. f_equal. by apply IH.
  - pose proof (length_filter P l). split; [lia|].
    intros [? _]%Forall_cons. done.
Qed.

(** X25. The count of passed results never exceeds the total count, and
    the indicator is green exactly when every stored result passed. *)
Theorem passedTests_and_indicator (st : TestRunner.State) :
  TestRunner.passedTests st ≤ TestRunner.totalTests st ∧
  (TestRunner.indicatorIsGreen st = true ↔
   ∀ k r, TestRunner.testResults st !! k = Some r → TestRunner.passed r = true).
Proof.
  unfold TestRunner.indicatorIsGreen, TestRunner.passedTests, TestRunner.totalTests.
  split; [apply length_filter|].
  rewrite Nat.eqb_eq, length_filter_all, Forall_forall. split.
  - intros H k r Hk. apply Is_true_true. apply (H (k, r)).
    by apply elem_of_map_to_list.
  - intros H [k r] Hk%elem_of_map_to_list. apply Is_true_true. by eapply H.
Qed.

Lemma passedTests_and_indicator_witness :
  TestRunner.indicatorIsGreen mixedResults = false.
Proof.
  apply not_true_is_false. intros Hgreen.
  pose proof (proj1 (proj2 (passedTests_and_indicator mixedResults)) Hgreen
                (str "list-delete-task")
                (TestRunner.mkResult false (str "Error al eliminar tarea") None)
                eq_refl) as H.
  discriminate H.
Defined.

Lemma filter_category_partition {Dom} (l : list (TestRunner.TestCase Dom)) :
  filter (λ t, TestRunner.isCategory TestRunner.form t) l ++
  filter (λ t, TestRunner.isCategory TestRunner.list_ t) l ++
  filter (λ t, TestRunner.isCategory TestRunner.integration t) l ≡ₚ l.
Proof.
  induction l as [|x l IH]; [done|].
  rewrite !(filter_bool_cons _ x l).
  destruct (TestRunner.isCategory TestRunner.form x) eqn:E1,
           (TestRunner.isCategory TestRunner.list_ x) eqn:E2,
           (TestRunner.isCategory TestRunner.integration x) eqn:E3;
    unfold TestRunner.isCategory in E1, E2, E3;
    destruct (TestRunner.tc_category x); try discriminate; cbn [app].
  - by rewrite IH.
  - rewrite <-Permutation_middle. by rewrite IH.
  - rewrite app_assoc, <-Permutation_middle, <-app_assoc. by rewrite IH.
Qed.

(** X26. The three category lists of the panel partition the scenarios:
    together they hold every scenario exactly once, and each list keeps the
    order of declaration. *)
Theorem categorizedTests_partition {Dom} (testCases : list (TestRunner.TestCase Dom)) :
  (TestRunner.categorizedTests testCases).1.1 ++
  (TestRunner.categorizedTests testCases).1.2 ++
  (TestRunner.categorizedTests testCases).2 ≡ₚ testCases ∧
  (TestRunner.categorizedTests testCases).1.1 `sublist_of` testCases ∧
  (TestRunner.categorizedTests testCases).1.2 `sublist_of` testCases ∧
  (TestRunner.categorizedTests testCases).2 `sublist_of` testCases.
Proof.
  unfold TestRunner.categorizedTests. cbn [fst snd].
  split; [apply filter_category_partition|].
  repeat split; apply filter_sublist_of.
Qed.

Lemma runAllTests_replaces_results_witness :
  TestRunner.totalTests
    (TestRunner.app
       (TestRunner.runAllTests noSettle TestRunner.initialState threeScenarios
          emptyPage).2) = 3.
Proof.
  apply (proj2 (runAllTests_replaces_results noSettle TestRunner.initialState
                  threeScenarios emptyPage)).
  apply (bool_decide_unpack _). by vm_compute.
Defined.

Lemma icons_after_run_and_clear_witness :
  TestRunner.getResultIcon
    (TestRunner.clearResults
       (TestRunner.app
          (TestRunner.runAllTests noSettle TestRunner.initialState threeScenarios
             emptyPage).2))
    (str "third") = [0x26AA%N].
Proof.
  apply (proj2 (icons_after_run_and_clear noSettle TestRunner.initialState
                  threeScenarios emptyPage
                  (logging "third" (TestRunner.Normal okResult))
                  ltac:(do 2 apply list_elem_of_further; apply list_elem_of_here))).
Defined.

(** ** The test runner: scenarios that look at the snapshot *)

(** X27. The scenario ['form-submit-valid-direct'] can never pass. It
    does create its task, at the front of the collection, but it then
    compares the length of [context.tasks] with that same length: the
    result is always a failure with the message of the failed creation. *)
Theorem executeSubmitValidDirect_never_passes {Dom}
    (settle : nat → TestRunner.Browser Dom → TestRunner.Browser Dom)
    (context : TestRunner.TestContext) (b : TestRunner.Browser Dom) :
  ∃ r,
    TestRunner.executeSubmitValidDirect settle context b =
      (TestRunner.Normal r,
       settle 200
         (TestRunner.mkBrowser (TestRunner.dom b)
            (TestRunner.handleCreateTask TestRunner.directTestData
               (TestRunner.app b) (TestRunner.world b)).1
            (TestRunner.handleCreateTask TestRunner.directTestData
               (TestRunner.app b) (TestRunner.world b)).2)) ∧
    TestRunner.passed r = false ∧
    TestRunner.message r = str "Error en creaci" ++ [0xF3%N] ++ str "n directa" ∧
    TestRunner.tasks
      (TestRunner.handleCreateTask TestRunner.directTestData
         (TestRunner.app b) (TestRunner.world b)).1
      = fresh (dom (heap (TestRunner.world b))) :: TestRunner.tasks (TestRunner.app b).
Proof.
  unfold TestRunner.executeSubmitValidDirect, TestRunner.tryCatch.
  unfold mbind, TestRunner.Async_bind, TestRunner.abind,
    TestRunner.callHandleCreateTask, TestRunner.sleep.
  rewrite Nat.ltb_irrefl. eexists. split; [reflexivity|]. by repeat split.
Qed.

Section ScenarioProps.

Context {Dom Element : Type}.
Variable settle : nat → TestRunner.Browser Dom → TestRunner.Browser Dom.
Variable querySelector : jsstring → TestRunner.Async Dom (option Element).
Variable click : Element → TestRunner.Async Dom unit.

(** X28. The scenario ['list-delete-task'] can never pass, whatever the
    document holds and whatever the click does: it counts [context.tasks]
    before and after, which is the same array, and asks for one less. *)
Theorem executeDeleteTask_never_passes (context : TestRunner.TestContext)
    (b b' : TestRunner.Browser Dom) (r : TestRunner.TestResult) :
  TestRunner.executeDeleteTask settle querySelector click context b
    = (TestRunner.Normal r, b') →
  TestRunner.passed r = false.
Proof.
  unfold TestRunner.executeDeleteTask.
  destruct (TestRunner.ctx_tasks context) as [|l0 rest] eqn:Hts.
  { intros [= <- _]. done. }
  unfold mbind, TestRunner.Async_bind, TestRunner.abind, TestRunner.readTask,
    TestRunner.sleep.
  destruct (heap (TestRunner.world b) !! l0) as [t0|]; [|done].
  destruct (querySelector _ b) as [[[button|]|e] b1]; [| |done].
  - destruct (click button b1) as [[[]|e] b2]; [|done].
    match goal with
    | |- context [(?x =? ?y)%Z] =>
        assert ((x =? y)%Z = false) as -> by (apply Z.eqb_neq; lia)
    end.
    intros [= <- _]. done.
  - intros [= <- _]. done.
Qed.

(** X29. As long as neither the query, nor the click, nor the wait writes
    to a task object that exists (a toggle does not: it makes new
    objects), the scenario ['list-toggle-complete'] can never pass: it
    looks its task up in [context.tasks], finds the object it started
    from and compares [completed] with itself. *)
Theorem executeToggleComplete_never_passes (context : TestRunner.TestContext)
    (b b' : TestRunner.Browser Dom) (r : TestRunner.TestResult) :
  (∀ selector b0, keepsObjects b0 (querySelector selector b0).2) →
  (∀ box b0, keepsObjects b0 (click box b0).2) →
  (∀ ms b0, keepsObjects b0 (settle ms b0)) →
  TestRunner.executeToggleComplete settle querySelector click context b
    = (TestRunner.Normal r, b') →
  TestRunner.passed r = false.
Proof.
  intros Hq Hc Hs. unfold TestRunner.executeToggleComplete.
  destruct (TestRunner.ctx_tasks context) as [|l0 rest] eqn:Hts.
  { intros [= <- _]. done. }
  unfold mbind, TestRunner.Async_bind, TestRunner.abind, TestRunner.readTask,
    TestRunner.sleep.
  destruct (heap (TestRunner.world b) !! l0) as [t0|] eqn:Ht0; [|done].
  pose proof (Hq (str "[data-testid=" ++ [0x22%N] ++ str "task-" ++ id t0 ++
                  [0x22%N] ++ str "] input[type=" ++ [0x22%N] ++
                  str "checkbox" ++ [0x22%N] ++ str "]") b) as Hq1.
  destruct (querySelector _ b) as [[[box|]|e] b1]; [| |done].
  - pose proof (Hc box b1) as Hc1.
    destruct (click box b1) as [[[]|e] b2]; [|done].
    pose proof (Hs 200 b2) as Hs1. cbn [snd] in *.
    assert (heap (TestRunner.world (settle 200 b2)) !! l0 = Some t0) as Hl0.
    { apply Hs1, Hc1, Hq1, Ht0. }
    unfold TestRunner.checkToggled. rewrite Hts. intros [= <- _].
    cbn [TestRunner.passed]. unfold TestRunner.findById. cbn [List.find].
    unfold TestRunner.sameId at 1. rewrite Hl0, bool_decide_eq_true_2 by done.
    cbn. rewrite Hl0. cbn. by rewrite eqb_reflx.
  - intros [= <- _]. done.
Qed.

End ScenarioProps.

Lemma executeDeleteTask_never_passes_witness :
  TestRunner.tasks
    (TestRunner.app
       (TestRunner.executeDeleteTask noWait findFirstControl clickDelete
          runnerContext runnerPage).2) = [2%positive] ∧
  match (TestRunner.executeDeleteTask noWait findFirstControl clickDelete
           runnerContext runnerPage).1 with
  | TestRunner.Normal r => TestRunner.passed r = false
  | TestRunner.Throw _ => False
  end.
Proof.
  split; [by vm_compute|].
  destruct (TestRunner.executeDeleteTask noWait findFirstControl clickDelete
              runnerContext runnerPage) as [[r|e] b'] eqn:E; cbn [fst].
  - exact (executeDeleteTask_never_passes noWait findFirstControl clickDelete
             runnerContext runnerPage b' r E).
  - vm_compute in E. discriminate E.
Defined.

Lemma clickToggle_keepsObjects (target : jsstring) (b0 : TestRunner.Browser unit) :
  keepsObjects b0 (clickToggle target b0).2.
Proof.
  unfold clickToggle, TestRunner.handleToggleComplete, mbind, Js_bind, jbind.
  pose proof (mapJs_toggle_extends target
                (TestRunner.tasks (TestRunner.app b0)) (TestRunner.world b0))
    as (_ & _ & H).
  destruct (mapJs (toggleOne target) _ _) as [ls' w']. exact H.
Defined.

Lemma executeToggleComplete_never_passes_witness :
  TestRunner.tasks
    (TestRunner.app
       (TestRunner.executeToggleComplete noWait findFirstControl clickToggle
          runnerContext runnerPage).2) = [3%positive; 2%positive] ∧
  match (TestRunner.executeToggleComplete noWait findFirstControl clickToggle
           runnerContext runnerPage).1 with
  | TestRunner.Normal r => TestRunner.passed r = false
  | TestRunner.Throw _ => False
  end.
Proof.
  split; [by vm_compute|].
  destruct (TestRunner.executeToggleComplete noWait findFirstControl clickToggle
              runnerContext runnerPage) as [[r|e] b'] eqn:E; cbn [fst].
  - exact (executeToggleComplete_never_passes noWait findFirstControl clickToggle
             runnerContext runnerPage b' r
             (λ _ _ _ _ H, H) clickToggle_keepsObjects (λ _ _ _ _ H, H) E).
  - vm_compute in E. discriminate E.
Defined.

Lemma runTest_stores_one_result_witness :
  ∃ b',
    TestRunner.runTest TestRunner.initialState
      (logging "second"
         (TestRunner.Throw (TestRunner.ErrorObject (str "TypeError") (str "boom"))))
      emptyPage = (TestRunner.Normal tt, b') ∧
    TestRunner.testResults (TestRunner.app b') !! str "second"
      = Some (TestRunner.mkResult false
                (str "Error ejecutando test: TypeError: boom") None) ∧
    TestRunner.testResults (TestRunner.app b') !! str "first" = None.
Proof.
  destruct (runTest_stores_one_result TestRunner.initialState
              (logging "second"
                 (TestRunner.Throw
                    (TestRunner.ErrorObject (str "TypeError") (str "boom"))))
              emptyPage) as (b' & Hrun & _ & _ & Hres & Hother & _).
  exists b'. split; [exact Hrun|]. split; [exact Hres|].
  apply (Hother (str "first")). intros H. discriminate H.
Defined.
